(** * A tagged binary encoding: the codec of [src/main.cpp]

    The program encodes values of four kinds (unsigned integer, double,
    string, vector of values) into a byte buffer and decodes them back.
    This file embeds the codec in Rocq, function by function, and states
    the properties of the specification about it.

    Conventions of the embedding.
    - [uint64_t] is a [Z] in [0, 2^64); wrap-around is written [wrap64].
    - [std::byte] is [Byte.byte]; [Buffer] is [list byte].
    - The iterator pair [(begin, end)] of a decoder is the list of bytes
      from the cursor to the end of the buffer; moving [begin] forward
      drops bytes from the front of that list.
    - An exception that leaves a function is the outcome [Throw]; an
      operation whose precondition the C++ standard leaves to the caller
      (a read past the end of the buffer, an iterator pair that is no
      range) is the outcome [Undefined]: the standard says nothing about
      what happens then, a return included.
    - A member function that changes its object is also given as a
      function from the object before the call to the object after it,
      where a property is about the object.
    - The decoder is recursive through [VectorType]; it is written with a
      fuel argument and [OutOfFuel] is shown never to be the answer when
      the fuel exceeds the number of bytes left. *)

From Stdlib Require Import ZArith List Lia Bool Arith.
From coqutil Require Import Byte Word.LittleEndianList.
Import ListNotations.

Local Open Scope Z_scope.

(** ** Machine integers *)

Module U64.

Definition modulus : Z := 2 ^ 64.

(** conversion of a [Z] to [uint64_t] *)
Definition wrap64 (z : Z) : Z := z mod modulus.

(** [static_cast<int64_t>(x)] of a [uint64_t] *)
Definition to_int64 (x : Z) : Z :=
  if wrap64 x <? 2 ^ 63 then wrap64 x else wrap64 x - modulus.

Definition in_range (z : Z) : Prop := 0 <= z < modulus.

Definition in_rangeb (z : Z) : bool := (0 <=? z) && (z <? modulus).

End U64.
Import U64.

(** [sizeof(uint64_t)] and [sizeof(double)] *)
Definition sizeof_uint64 : nat := 8.
Definition sizeof_double : nat := 8.

Definition Buffer := list byte.

(** ** Outcomes *)

(** The exceptions that leave the decoder: the two messages of
    [std::runtime_error] that it throws itself, and the
    [std::length_error] of [std::string::assign]. *)
Inductive Error : Type :=
| TruncatedInput   (* "Not enough data for deserialization" *)
| UnknownTag       (* "Unknown type ID" *)
| LengthError.     (* [std::length_error], from the standard library *)

(** Precondition violations that the code does not guard. *)
Inductive Violation : Type :=
| ReadPastEnd      (* a read of bytes beyond [end] *)
| InvalidRange.    (* [first] and [last] of two different vectors *)

Inductive result (A : Type) : Type :=
| Ok (a : A)
| Throw (e : Error)
| Undefined (u : Violation)
| OutOfFuel.

Arguments Ok {A} a.
Arguments Throw {A} e.
Arguments Undefined {A} u.
Arguments OutOfFuel {A}.

Definition bind {A B} (r : result A) (k : A -> result B) : result B :=
  match r with
  | Ok a => k a
  | Throw e => Throw e
  | Undefined u => Undefined u
  | OutOfFuel => OutOfFuel
  end.

Notation "x <- r ;; k" := (bind r (fun x => k))
  (at level 61, r at next level, right associativity).
Notation "' p <- r ;; k" := (bind r (fun p => k))
  (at level 61, p pattern, r at next level, right associativity).

(** ** Primitive codec: [toLittleEndian], [fromLittleEndian] *)

(** The loop of [toLittleEndian<uint64_t>]: [n] iterations are left,
    each stores [value & 0xFF] and shifts [value] right by 8. *)
Fixpoint toLittleEndian_loop (n : nat) (value : Z) : list byte :=
  match n with
  | O => []
  | S n' => byte.of_Z (Z.land value 255)
              :: toLittleEndian_loop n' (Z.shiftr value 8)
  end.

Definition toLittleEndian (value : Z) : list byte :=
  toLittleEndian_loop sizeof_uint64 value.

(** The loop of [fromLittleEndian<uint64_t>]: [n] iterations are left,
    [i] is the loop index, [data] the bytes from the pointer on. *)
Fixpoint fromLittleEndian_loop (n i : nat) (data : list byte) (res : Z) : Z :=
  match n with
  | O => res
  | S n' =>
      fromLittleEndian_loop n' (S i) data
        (Z.lor res
           (wrap64 (Z.shiftl (byte.unsigned (nth i data Byte.x00))
                             (Z.of_nat i * 8))))
  end.

Definition fromLittleEndian (data : list byte) : Z :=
  fromLittleEndian_loop sizeof_uint64 0 data 0.

(** ** Memory: the input range, ranges of vectors *)

(** The pair [(begin, end)] handed to every [deserialize] is the range of
    bytes from the cursor to the end of the buffer. Advancing the cursor
    drops bytes from its front; a function that returns an iterator
    returns the range that is left. *)
Definition Range := list byte.

(** [std::distance(begin, end)] *)
Definition distance (range : Range) : Z := Z.of_nat (length range).

(** [d < sizeof(T)] for a distance [d]: a distance is never negative, so
    the conversion to [size_t] that this comparison makes leaves it as it
    is. *)
Definition lt_sizeof (d : Z) (size : nat) : bool := d <? Z.of_nat size.

(** A read of [n] bytes through the pointer [&( *begin)]. The caller has
    to make sure that they lie before [end]. *)
Definition read_bytes (range : Range) (n : Z) : result (list byte) :=
  if (0 <=? n) && (n <=? distance range)
  then Ok (firstn (Z.to_nat n) range)
  else Undefined ReadPastEnd.

(** [begin + n] *)
Definition advance (range : Range) (n : nat) : Range := skipn n range.

(** [std::string::max_size()]. Its value is the library's choice; every
    standard library for a 64-bit target keeps it below [2^63], and the
    model takes the largest such value. A length that is not above it
    and that the guard of [StringType::deserialize] lets through has its
    bytes in the buffer. *)
Definition string_max_size : Z := 2 ^ 63 - 1.

(** [value_.assign(s, n)] with [s] the pointer [&( *begin)]: throws
    [std::length_error] when [n > max_size()], before any byte is
    copied, and copies [n] bytes otherwise. *)
Definition string_assign (range : Range) (n : Z) : result (list byte) :=
  if string_max_size <? n then Throw LengthError else read_bytes range n.

(** An iterator (or pointer) into a sequence of bytes: the object it
    points into, the bytes of that object and an offset. *)
Record iterator : Type := mkIterator {
  it_object : nat;
  it_bytes : list byte;
  it_offset : nat
}.

(** A sequence object used by one statement. The objects of a statement
    are numbered in order of appearance: a local variable is one object,
    and every call of a function that returns a vector by value makes a
    new one. *)
Record object : Type := mkObject {
  obj_id : nat;
  obj_bytes : list byte
}.

Definition variable (bytes : list byte) : object := mkObject 0 bytes.
Definition temporary (k : nat) (bytes : list byte) : object := mkObject k bytes.

Definition begin_of (o : object) : iterator :=
  mkIterator (obj_id o) (obj_bytes o) 0.
Definition end_of (o : object) : iterator :=
  mkIterator (obj_id o) (obj_bytes o) (length (obj_bytes o)).

(** [buffer.insert(buffer.end(), first, last)]: appends the bytes of
    [first, last), which has to be a range of one object. *)
Definition insert_at_end (buffer : Buffer) (first last : iterator)
  : result Buffer :=
  if Nat.eqb (it_object first) (it_object last)
     && Nat.leb (it_offset first) (it_offset last)
  then Ok (buffer ++ firstn (it_offset last - it_offset first)
                            (skipn (it_offset first) (it_bytes first)))
  else Undefined InvalidRange.

(** ** The type discriminant *)

Module TypeId.

Inductive t : Type := Uint | Float | String | Vector.

(** [static_cast<uint64_t>(id)]: enumerators without initialiser count
    from zero. *)
Definition code (id : t) : Z :=
  match id with
  | Uint => 0
  | Float => 1
  | String => 2
  | Vector => 3
  end.

(** [static_cast<TypeId>(c)] as the [switch] sees it: one of the four
    enumerators, or a value that is none of them ([default]). *)
Definition of_code (c : Z) : option t :=
  if c =? 0 then Some Uint
  else if c =? 1 then Some Float
  else if c =? 2 then Some String
  else if c =? 3 then Some Vector
  else None.

End TypeId.

(** ** Values *)

(** A [double] is held as its 64-bit IEEE-754 pattern: the codec only
    reinterprets it and never computes with it. *)
Record double : Type := mkDouble { bit_pattern : Z }.

(** [*reinterpret_cast<uint64_t*>(&d)] and [*reinterpret_cast<double*>(&raw)] *)
Definition bits_of_double (d : double) : Z := wrap64 (bit_pattern d).
Definition double_of_bits (raw : Z) : double := mkDouble raw.

Record IntegerType : Type := mkIntegerType { int_value_ : Z }.
Record FloatType : Type := mkFloatType { float_value_ : double }.
Record StringType : Type := mkStringType { string_value_ : list byte }.

Inductive Any : Type :=
| Any_Integer (payload_ : IntegerType)
| Any_Float (payload_ : FloatType)
| Any_String (payload_ : StringType)
| Any_Vector (payload_ : VectorType)
with VectorType : Type :=
| mkVectorType (elements_ : list Any).

Definition getElements (v : VectorType) : list Any :=
  match v with mkVectorType elements_ => elements_ end.

Definition getPayloadTypeId (a : Any) : TypeId.t :=
  match a with
  | Any_Integer _ => TypeId.Uint
  | Any_Float _ => TypeId.Float
  | Any_String _ => TypeId.String
  | Any_Vector _ => TypeId.Vector
  end.

(** What the C++ types can hold: 64-bit payloads, a string shorter than
    [2^63] bytes ([std::string::max_size()]), fewer than [2^64] elements. *)
Fixpoint representable (a : Any) : bool :=
  match a with
  | Any_Integer v => in_rangeb (int_value_ v)
  | Any_Float v => in_rangeb (bit_pattern (float_value_ v))
  | Any_String v => Z.of_nat (length (string_value_ v)) <? 2 ^ 63
  | Any_Vector (mkVectorType elements_) =>
      (Z.of_nat (length elements_) <? modulus)
      && (fix all (l : list Any) : bool :=
            match l with
            | [] => true
            | e :: l' => representable e && all l'
            end) elements_
  end.

(** ** Induction on tagged values *)

Section Any_induction.

Variable P : Any -> Prop.
Hypothesis P_Integer : forall v, P (Any_Integer v).
Hypothesis P_Float : forall v, P (Any_Float v).
Hypothesis P_String : forall v, P (Any_String v).
Hypothesis P_Vector :
  forall elements_, Forall P elements_ -> P (Any_Vector (mkVectorType elements_)).

Fixpoint Any_nested_ind (a : Any) : P a :=
  match a with
  | Any_Integer v => P_Integer v
  | Any_Float v => P_Float v
  | Any_String v => P_String v
  | Any_Vector (mkVectorType elements_) =>
      P_Vector elements_
        ((fix all (l : list Any) : Forall P l :=
            match l with
            | [] => Forall_nil P
            | e :: l' => Forall_cons e (Any_nested_ind e) (all l')
            end) elements_)
  end.

End Any_induction.

(** ** Serialization *)

Definition IntegerType_serialize (self : IntegerType) (buffer : Buffer)
  : result Buffer :=
  let le := variable (toLittleEndian (wrap64 (int_value_ self))) in
  insert_at_end buffer (begin_of le) (end_of le).

Definition FloatType_serialize (self : FloatType) (buffer : Buffer)
  : result Buffer :=
  let le := variable (toLittleEndian (bits_of_double (float_value_ self))) in
  insert_at_end buffer (begin_of le) (end_of le).

Definition StringType_serialize (self : StringType) (buffer : Buffer)
  : result Buffer :=
  let sizeLe :=
    variable (toLittleEndian (wrap64 (Z.of_nat (length (string_value_ self))))) in
  buffer <- insert_at_end buffer (begin_of sizeLe) (end_of sizeLe) ;;
  let data := variable (string_value_ self) in
  insert_at_end buffer (begin_of data) (end_of data).

(** The tag of [Any::serialize] (lines 168 to 178): [first] is [begin()]
    of one call of [toLittleEndian], [last] is [end()] of a second call. *)
Definition insert_tag (id : TypeId.t) (buffer : Buffer) : result Buffer :=
  insert_at_end buffer
    (begin_of (temporary 0 (toLittleEndian (wrap64 (TypeId.code id)))))
    (end_of (temporary 1 (toLittleEndian (wrap64 (TypeId.code id))))).

(** The tag written the way every other [serialize] of the file writes
    its fields: the encoded bytes bound to a variable first. Not the
    code of [Any::serialize]; used to locate its defect. *)
Definition insert_tag_one_vector (id : TypeId.t) (buffer : Buffer)
  : result Buffer :=
  let le := variable (toLittleEndian (wrap64 (TypeId.code id))) in
  insert_at_end buffer (begin_of le) (end_of le).

Section Serialize.

(** how the tag is appended *)
Variable tag : TypeId.t -> Buffer -> result Buffer.

Fixpoint Any_serialize_with (self : Any) (buffer : Buffer) : result Buffer :=
  match self with
  | Any_Integer arg =>
      buffer <- tag TypeId.Uint buffer ;;
      IntegerType_serialize arg buffer
  | Any_Float arg =>
      buffer <- tag TypeId.Float buffer ;;
      FloatType_serialize arg buffer
  | Any_String arg =>
      buffer <- tag TypeId.String buffer ;;
      StringType_serialize arg buffer
  | Any_Vector arg =>
      buffer <- tag TypeId.Vector buffer ;;
      VectorType_serialize_with arg buffer
  end
with VectorType_serialize_with (self : VectorType) (buffer : Buffer)
  : result Buffer :=
  match self with
  | mkVectorType elements_ =>
      let sizeLe :=
        variable (toLittleEndian (wrap64 (Z.of_nat (length elements_)))) in
      buffer <- insert_at_end buffer (begin_of sizeLe) (end_of sizeLe) ;;
      (fix each (l : list Any) (buffer : Buffer) : result Buffer :=
         match l with
         | [] => Ok buffer
         | element :: l' =>
             buffer <- Any_serialize_with element buffer ;; each l' buffer
         end) elements_ buffer
  end.

(** The [for (const auto& element : ...)] loop. *)
Fixpoint serialize_each (l : list Any) (buffer : Buffer) : result Buffer :=
  match l with
  | [] => Ok buffer
  | element :: l' =>
      buffer <- Any_serialize_with element buffer ;; serialize_each l' buffer
  end.

End Serialize.

Definition Any_serialize : Any -> Buffer -> result Buffer :=
  Any_serialize_with insert_tag.

Definition VectorType_serialize : VectorType -> Buffer -> result Buffer :=
  VectorType_serialize_with insert_tag.

(** ** Deserialization *)

Definition IntegerType_deserialize (range : Range)
  : result (IntegerType * Range) :=
  if lt_sizeof (distance range) sizeof_uint64 then Throw TruncatedInput
  else
    data <- read_bytes range 8 ;;
    Ok (mkIntegerType (fromLittleEndian data), advance range sizeof_uint64).

Definition FloatType_deserialize (range : Range)
  : result (FloatType * Range) :=
  if lt_sizeof (distance range) sizeof_double then Throw TruncatedInput
  else
    data <- read_bytes range 8 ;;
    let rawValue := fromLittleEndian data in
    Ok (mkFloatType (double_of_bits rawValue), advance range sizeof_double).

Definition StringType_deserialize (range : Range)
  : result (StringType * Range) :=
  if lt_sizeof (distance range) sizeof_uint64 then Throw TruncatedInput
  else
    data <- read_bytes range 8 ;;
    let size := fromLittleEndian data in
    let range := advance range sizeof_uint64 in
    if distance range <? to_int64 size then Throw TruncatedInput
    else
      chars <- string_assign range size ;;
      Ok (mkStringType chars, advance range (Z.to_nat size)).

(** The loop [for (uint64_t i = 0; i < size; ++i)] of
    [VectorType::deserialize] and of [Serializator::deserialize]; one
    unit of fuel per iteration. *)
Fixpoint deserialize_loop (any_deserialize : Range -> result (Any * Range))
    (fuel : nat) (i size : Z) (range : Range) (elements : list Any)
  : result (list Any * Range) :=
  if i <? size then
    match fuel with
    | O => OutOfFuel
    | S fuel' =>
        '(any, range) <- any_deserialize range ;;
        deserialize_loop any_deserialize fuel' (wrap64 (i + 1)) size range
          (elements ++ [any])
    end
  else Ok (elements, range).

Definition VectorType_deserialize_with
    (any_deserialize : Range -> result (Any * Range))
    (fuel : nat) (range : Range) : result (VectorType * Range) :=
  if lt_sizeof (distance range) sizeof_uint64 then Throw TruncatedInput
  else
    data <- read_bytes range 8 ;;
    let size := fromLittleEndian data in
    let range := advance range sizeof_uint64 in
    '(elements, range) <-
      deserialize_loop any_deserialize fuel 0 size range [] ;;
    Ok (mkVectorType elements, range).

Fixpoint Any_deserialize_fuel (fuel : nat) (range : Range)
  : result (Any * Range) :=
  match fuel with
  | O => OutOfFuel
  | S fuel' =>
      if lt_sizeof (distance range) sizeof_uint64 then Throw TruncatedInput
      else
        data <- read_bytes range 8 ;;
        let typeId := TypeId.of_code (fromLittleEndian data) in
        let range := advance range sizeof_uint64 in
        match typeId with
        | Some TypeId.Uint =>
            '(value, range) <- IntegerType_deserialize range ;;
            Ok (Any_Integer value, range)
        | Some TypeId.Float =>
            '(value, range) <- FloatType_deserialize range ;;
            Ok (Any_Float value, range)
        | Some TypeId.String =>
            '(value, range) <- StringType_deserialize range ;;
            Ok (Any_String value, range)
        | Some TypeId.Vector =>
            '(value, range) <-
              VectorType_deserialize_with (Any_deserialize_fuel fuel') fuel'
                range ;;
            Ok (Any_Vector value, range)
        | None => Throw UnknownTag
        end
  end.

(** More fuel than the range has bytes: every nested call and every
    iteration that succeeds shortens the range. *)
Definition enough_fuel (range : Range) : nat := S (length range).

Definition Any_deserialize (range : Range) : result (Any * Range) :=
  Any_deserialize_fuel (enough_fuel range) range.

Definition VectorType_deserialize (range : Range)
  : result (VectorType * Range) :=
  VectorType_deserialize_with Any_deserialize (enough_fuel range) range.

(** ** The container *)

Record Serializator : Type := mkSerializator { storage_ : list Any }.

Definition push (s : Serializator) (val : Any) : Serializator :=
  mkSerializator (storage_ s ++ [val]).

Section ContainerSerialize.

Variable tag : TypeId.t -> Buffer -> result Buffer.

Definition Serializator_serialize_with (s : Serializator) : result Buffer :=
  let buffer : Buffer := [] in
  let sizeLe :=
    variable (toLittleEndian (wrap64 (Z.of_nat (length (storage_ s))))) in
  buffer <- insert_at_end buffer (begin_of sizeLe) (end_of sizeLe) ;;
  serialize_each tag (storage_ s) buffer.

End ContainerSerialize.

Definition Serializator_serialize : Serializator -> result Buffer :=
  Serializator_serialize_with insert_tag.

Definition Serializator_deserialize (buffer : Buffer) : result (list Any) :=
  let range : Range := buffer in
  if lt_sizeof (distance range) sizeof_uint64 then Throw TruncatedInput
  else
    data <- read_bytes range 8 ;;
    let size := fromLittleEndian data in
    let range := advance range sizeof_uint64 in
    '(res, _) <-
      deserialize_loop Any_deserialize (enough_fuel range) 0 size range [] ;;
    Ok res.

(** The element loop run by the decoder that answers on every range. *)
Definition deserialize_elements (i size : Z) (range : Range)
    (elements : list Any) : result (list Any * Range) :=
  deserialize_loop Any_deserialize (enough_fuel range) i size range elements.

(** ** The wire format

    The grammar of the specification (section 6), every integer field
    being 8 bytes, little-endian:
    [Value := tag:u64, Payload(tag)], with [Payload(Uint) := raw:u64],
    [Payload(Float) := bits:u64], [Payload(String) := len:u64, bytes{len}],
    [Payload(Vector) := count:u64, Value{count}], and
    [Container := count:u64, Value{count}]. *)
Module Wire.

Definition u64 (z : Z) : list byte := toLittleEndian z.

Fixpoint Value (a : Any) : list byte :=
  u64 (TypeId.code (getPayloadTypeId a)) ++
  match a with
  | Any_Integer v => u64 (int_value_ v)
  | Any_Float v => u64 (bit_pattern (float_value_ v))
  | Any_String v =>
      u64 (Z.of_nat (length (string_value_ v))) ++ string_value_ v
  | Any_Vector (mkVectorType elements_) =>
      u64 (Z.of_nat (length elements_)) ++ flat_map Value elements_
  end.

Definition Values (l : list Any) : list byte := flat_map Value l.

Definition Container (l : list Any) : list byte :=
  u64 (Z.of_nat (length l)) ++ Values l.

End Wire.

(** Every value of a list is [representable], and the list has a 64-bit
    length. *)
Definition all_representable (l : list Any) : bool :=
  (Z.of_nat (length l) <? modulus) && forallb representable l.

(** ** Notions used to state the properties *)

(** [r2] is [r1] whenever [r1] is an answer of the program rather than a
    lack of fuel. *)
Definition refines {A : Type} (r1 r2 : result A) : Prop :=
  r1 <> OutOfFuel -> r2 = r1.

Definition decoder_refines (g1 g2 : Range -> result (Any * Range)) : Prop :=
  forall range, refines (g1 range) (g2 range).

(** A decoder of one tagged value answers on [range], and when it
    succeeds it has consumed at least the tag and one more field. *)
Definition consumes (g : Range -> result (Any * Range)) (range : Range)
  : Prop :=
  g range <> OutOfFuel
  /\ forall v rest, g range = Ok (v, rest) ->
       (length rest + 16 <= length range)%nat.

(** [k] tagged values decoded one after the other. *)
Fixpoint decode_values (k : nat) (range : Range) : result (list Any * Range) :=
  match k with
  | O => Ok ([], range)
  | S k' =>
      '(v, range) <- Any_deserialize range ;;
      '(vs, range) <- decode_values k' range ;;
      Ok (v :: vs, range)
  end.

(** ** Sample inputs *)

(** The container [Integer(5), String("x")] on the wire. *)
Definition sample_buffer : Buffer :=
  Wire.Container [Any_Integer (mkIntegerType 5);
                  Any_String (mkStringType [Byte.x78])].

(** A count of 2, the value [Integer(5)], and one stray byte where the
    second value should start. *)
Definition sample_truncated : Buffer :=
  Wire.u64 2 ++ Wire.Value (Any_Integer (mkIntegerType 5)) ++ [Byte.x03].

(** ** The remaining members *)

(** [VectorType::push_back]: [elements_.emplace_back(val)] *)
Definition VectorType_push_back (self : VectorType) (val : Any) : VectorType :=
  mkVectorType (getElements self ++ [val]).

Definition getStorage (s : Serializator) : list Any := storage_ s.

(** [Any::getValue<T>]: [std::get<T>(payload_)], which throws
    [std::bad_variant_access] (here [None]) when the active alternative
    is not [T]. One function per instance of the template. *)
Definition getValue_IntegerType (self : Any) : option IntegerType :=
  match self with Any_Integer v => Some v | _ => None end.

Definition getValue_FloatType (self : Any) : option FloatType :=
  match self with Any_Float v => Some v | _ => None end.

Definition getValue_StringType (self : Any) : option StringType :=
  match self with Any_String v => Some v | _ => None end.

Definition getValue_VectorType (self : Any) : option VectorType :=
  match self with Any_Vector v => Some v | _ => None end.

(** [operator==] of two buffers: the same size and equal bytes. *)
Fixpoint Buffer_eqb (x y : Buffer) : bool :=
  match x, y with
  | [], [] => true
  | a :: x', b :: y' => Byte.eqb a b && Buffer_eqb x' y'
  | _, _ => false
  end.

(** [main], from the buffer read from the file on: decode it, push the
    decoded values in order into a fresh [Serializator], encode that, and
    print whether the bytes are those of the file. The answer is the
    value printed. *)
Definition main_after_read (buff : Buffer) : result bool :=
  res <- Serializator_deserialize buff ;;
  let s := fold_left push res (mkSerializator []) in
  out <- Serializator_serialize s ;;
  Ok (Buffer_eqb buff out).

(** What the decoder can return: 64-bit payloads and counts, strings
    within [string_max_size]. *)
Fixpoint encodable (a : Any) : bool :=
  match a with
  | Any_Integer v => in_rangeb (int_value_ v)
  | Any_Float v => in_rangeb (bit_pattern (float_value_ v))
  | Any_String v => Z.of_nat (length (string_value_ v)) <? 2 ^ 63
  | Any_Vector (mkVectorType elements_) =>
      (Z.of_nat (length elements_) <? modulus)
      && forallb encodable elements_
  end.

(** ** Member functions and their object

    [deserialize] is a member function: it changes the object it is
    called on. The functions below give the object after the call next
    to the outcome of the call, the returned iterator or what ended it. *)

(** The loop of [VectorType::deserialize] on the member [elements_]:
    every decoded value is pushed at once, so when an iteration throws
    the values pushed so far are in [elements_]. The [Any] of an
    iteration is a fresh local. *)
Fixpoint deserialize_loop_on
    (any_deserialize : Range -> result (Any * Range))
    (fuel : nat) (i size : Z) (range : Range) (elements_ : list Any)
  : list Any * result Range :=
  if i <? size then
    match fuel with
    | O => (elements_, OutOfFuel)
    | S fuel' =>
        match any_deserialize range with
        | Ok (any, range) =>
            deserialize_loop_on any_deserialize fuel' (wrap64 (i + 1)) size
              range (elements_ ++ [any])
        | Throw e => (elements_, Throw e)
        | Undefined u => (elements_, Undefined u)
        | OutOfFuel => (elements_, OutOfFuel)
        end
    end
  else (elements_, Ok range).

(** [VectorType::deserialize] on the object [self]: the guard throws
    before [elements_] is touched; after it, [elements_.clear()] and the
    loop. *)
Definition VectorType_deserialize_on (self : VectorType) (range : Range)
  : VectorType * result Range :=
  if lt_sizeof (distance range) sizeof_uint64 then (self, Throw TruncatedInput)
  else
    match read_bytes range 8 with
    | Ok data =>
        let size := fromLittleEndian data in
        let range := advance range sizeof_uint64 in
        let '(elements_, outcome) :=
          deserialize_loop_on Any_deserialize (enough_fuel range) 0 size
            range [] in
        (mkVectorType elements_, outcome)
    | Throw e => (self, Throw e)
    | Undefined u => (self, Undefined u)
    | OutOfFuel => (self, OutOfFuel)
    end.

(** [Any::deserialize] on the object [self]: every branch decodes into
    a local [value] and assigns [payload_ = value] after the decoder of
    the variant has returned, so [payload_] changes on success only. *)
Definition Any_deserialize_on (self : Any) (range : Range)
  : Any * result Range :=
  match Any_deserialize range with
  | Ok (value, range) => (value, Ok range)
  | Throw e => (self, Throw e)
  | Undefined u => (self, Undefined u)
  | OutOfFuel => (self, OutOfFuel)
  end.

(** The outcome of a member call as the value-returning decoders give
    it: the object and the iterator on success, the failure otherwise. *)
Definition outcome_of {A : Type} (p : A * result Range) : result (A * Range) :=
  match p with
  | (a, Ok range) => Ok (a, range)
  | (_, Throw e) => Throw e
  | (_, Undefined u) => Undefined u
  | (_, OutOfFuel) => OutOfFuel
  end.

(** A decoder has returned a value with the cursor at least [n] bytes
    further, or an exception has left it. *)
Definition returns_or_throws {A : Type} (n : nat) (range : Range)
    (r : result (A * Range)) : Prop :=
  (exists v rest, r = Ok (v, rest) /\ (length rest + n <= length range)%nat)
  \/ (exists e, r = Throw e).

(** * Properties *)

(** ** The primitive codec *)

Lemma modulus_eq : modulus = 2 ^ 64.
Proof. reflexivity. Qed.

Lemma wrap64_small (z : Z) : in_range z -> wrap64 z = z.
Proof. unfold in_range, wrap64. intros H. apply Z.mod_small. exact H. Qed.

Lemma in_rangeb_true (z : Z) : in_rangeb z = true <-> in_range z.
Proof.
  unfold in_rangeb, in_range.
  rewrite andb_true_iff, Z.leb_le, Z.ltb_lt. reflexivity.
Qed.

Lemma of_Z_low_byte (v : Z) : byte.of_Z (Z.land v 255) = byte.of_Z v.
Proof.
  apply byte.unsigned_inj. rewrite !byte.unsigned_of_Z. unfold byte.wrap.
  change 255 with (Z.ones 8). rewrite Z.land_ones by lia.
  apply Z.mod_mod. lia.
Qed.

Lemma toLittleEndian_loop_le_split (n : nat) :
  forall v, toLittleEndian_loop n v = le_split n v.
Proof.
  induction n as [|n IH]; intros v; simpl.
  - reflexivity.
  - rewrite of_Z_low_byte, IH. reflexivity.
Qed.

Lemma length_toLittleEndian (v : Z) : length (toLittleEndian v) = 8%nat.
Proof.
  unfold toLittleEndian. rewrite toLittleEndian_loop_le_split.
  apply length_le_split.
Qed.

Lemma firstn_snoc_nth (i : nat) (data : list byte) :
  (i < length data)%nat ->
  firstn (S i) data = firstn i data ++ [nth i data Byte.x00].
Proof.
  revert data. induction i as [|i IH]; intros [|x data] H; simpl in *;
    try lia.
  - reflexivity.
  - f_equal. apply IH. lia.
Qed.

Lemma shifted_byte_fits (x : byte) (i : nat) :
  (i < 8)%nat ->
  wrap64 (Z.shiftl (byte.unsigned x) (Z.of_nat i * 8))
  = Z.shiftl (byte.unsigned x) (Z.of_nat i * 8).
Proof.
  intros Hi. apply wrap64_small. unfold in_range.
  pose proof (byte.unsigned_range x) as Hx.
  rewrite Z.shiftl_mul_pow2 by lia. rewrite modulus_eq.
  assert (Hp : 0 < 2 ^ (Z.of_nat i * 8)) by (apply Z.pow_pos_nonneg; lia).
  split; [nia|].
  apply Z.lt_le_trans with (2 ^ 8 * 2 ^ (Z.of_nat i * 8)); [nia|].
  rewrite <- Z.pow_add_r by lia.
  apply Z.pow_le_mono_r; lia.
Qed.

(** The decoding loop accumulates the little-endian value of the bytes
    it has visited. *)
Lemma fromLittleEndian_loop_le_combine (n : nat) :
  forall (i : nat) (data : list byte),
    (i + n <= 8)%nat -> (i + n <= length data)%nat ->
    fromLittleEndian_loop n i data (le_combine (firstn i data))
    = le_combine (firstn (i + n) data).
Proof.
  induction n as [|n IH]; intros i data H8 Hlen; simpl.
  - rewrite Nat.add_0_r. reflexivity.
  - rewrite shifted_byte_fits by lia.
    replace (i + S n)%nat with (S i + n)%nat by lia.
    rewrite <- IH by lia. f_equal.
    rewrite firstn_snoc_nth by lia.
    rewrite le_combine_app, le_combine_1.
    rewrite length_firstn, Nat.min_l by lia. reflexivity.
Qed.

Lemma fromLittleEndian_le_combine (data : list byte) :
  length data = 8%nat -> fromLittleEndian data = le_combine data.
Proof.
  intros H. unfold fromLittleEndian, sizeof_uint64.
  change 0 with (le_combine (firstn 0 data)) at 1.
  rewrite fromLittleEndian_loop_le_combine by lia.
  simpl Nat.add. rewrite <- H, firstn_all. reflexivity.
Qed.

Lemma fromLittleEndian_range (data : list byte) :
  length data = 8%nat -> in_range (fromLittleEndian data).
Proof.
  intros H. rewrite fromLittleEndian_le_combine by exact H.
  pose proof (le_combine_bound data) as B. rewrite H in B. exact B.
Qed.

Lemma fromLittleEndian_toLittleEndian (v : Z) :
  in_range v -> fromLittleEndian (toLittleEndian v) = v.
Proof.
  intros Hv. rewrite fromLittleEndian_le_combine by apply length_toLittleEndian.
  unfold toLittleEndian. rewrite toLittleEndian_loop_le_split.
  rewrite le_combine_split. apply Z.mod_small. exact Hv.
Qed.

Lemma toLittleEndian_fromLittleEndian (data : list byte) :
  length data = 8%nat -> toLittleEndian (fromLittleEndian data) = data.
Proof.
  intros H. rewrite fromLittleEndian_le_combine by exact H.
  unfold toLittleEndian. rewrite toLittleEndian_loop_le_split.
  unfold sizeof_uint64. rewrite <- H. apply split_le_combine.
Qed.

Lemma nth_toLittleEndian (v : Z) (i : nat) :
  (i < 8)%nat ->
  byte.unsigned (nth i (toLittleEndian v) Byte.x00)
  = Z.shiftr v (8 * Z.of_nat i) mod 256.
Proof.
  intros Hi. unfold toLittleEndian. rewrite toLittleEndian_loop_le_split.
  pose proof (nth_error_le_split i sizeof_uint64 v Hi) as E.
  apply nth_error_nth with (d := Byte.x00) in E. rewrite E.
  rewrite byte.unsigned_of_Z. reflexivity.
Qed.

(** C6. For a 64-bit value [v], [toLittleEndian v] has 8 bytes, byte [i]
    is [(v >> 8 i) mod 256], and [fromLittleEndian] gives [v] back. *)
Theorem C6_little_endian_codec (v : Z) (Hv : in_range v) :
  length (toLittleEndian v) = 8%nat
  /\ (forall i : nat, (i < 8)%nat ->
        byte.unsigned (nth i (toLittleEndian v) Byte.x00)
        = Z.shiftr v (8 * Z.of_nat i) mod 256)
  /\ fromLittleEndian (toLittleEndian v) = v.
Proof.
  split; [apply length_toLittleEndian|].
  split; [intros i Hi; apply nth_toLittleEndian; exact Hi|].
  apply fromLittleEndian_toLittleEndian. exact Hv.
Qed.

Lemma C6_little_endian_codec_witness :
  in_range 72623859790382856
  /\ length (toLittleEndian 72623859790382856) = 8%nat
  /\ (forall i : nat, (i < 8)%nat ->
        byte.unsigned (nth i (toLittleEndian 72623859790382856) Byte.x00)
        = Z.shiftr 72623859790382856 (8 * Z.of_nat i) mod 256)
  /\ fromLittleEndian (toLittleEndian 72623859790382856) = 72623859790382856.
Proof.
  assert (H : in_range 72623859790382856) by (unfold in_range, modulus; lia).
  split; [exact H|].
  exact (C6_little_endian_codec 72623859790382856 H).
Defined.

(** ** Reading from the range *)

Lemma lt_sizeof_false (range : Range) :
  lt_sizeof (distance range) 8 = false <-> (8 <= length range)%nat.
Proof. unfold lt_sizeof, distance. rewrite Z.ltb_ge. lia. Qed.

Lemma lt_sizeof_true (range : Range) :
  lt_sizeof (distance range) 8 = true <-> (length range < 8)%nat.
Proof. unfold lt_sizeof, distance. rewrite Z.ltb_lt. lia. Qed.

Lemma read_bytes_8 (range : Range) :
  (8 <= length range)%nat -> read_bytes range 8 = Ok (firstn 8 range).
Proof.
  intros H. unfold read_bytes, distance.
  replace (8 <=? Z.of_nat (length range)) with true
    by (symmetry; apply Z.leb_le; lia).
  reflexivity.
Qed.

Lemma length_firstn_8 (range : Range) :
  (8 <= length range)%nat -> length (firstn 8 range) = 8%nat.
Proof. intros H. rewrite length_firstn. lia. Qed.

Lemma length_advance (range : Range) (n : nat) :
  length (advance range n) = (length range - n)%nat.
Proof. unfold advance. apply length_skipn. Qed.

Lemma read_bytes_app (x rest : list byte) :
  read_bytes (x ++ rest) (Z.of_nat (length x)) = Ok x.
Proof.
  unfold read_bytes, distance. rewrite length_app, Nat2Z.id.
  replace (0 <=? Z.of_nat (length x)) with true
    by (symmetry; apply Z.leb_le; lia).
  replace (Z.of_nat (length x) <=? Z.of_nat (length x + length rest)) with true
    by (symmetry; apply Z.leb_le; lia).
  simpl. rewrite firstn_app, Nat.sub_diag, firstn_all. simpl.
  apply f_equal, app_nil_r.
Qed.

Lemma string_assign_small (range : Range) (n : Z) :
  n < 2 ^ 63 -> string_assign range n = read_bytes range n.
Proof.
  intros H. unfold string_assign, string_max_size.
  replace (2 ^ 63 - 1 <? n) with false by (symmetry; apply Z.ltb_ge; lia).
  reflexivity.
Qed.

Lemma string_assign_large (range : Range) (n : Z) :
  2 ^ 63 <= n -> string_assign range n = Throw LengthError.
Proof.
  intros H. unfold string_assign, string_max_size.
  replace (2 ^ 63 - 1 <? n) with true by (symmetry; apply Z.ltb_lt; lia).
  reflexivity.
Qed.

Lemma advance_app (x rest : list byte) : advance (x ++ rest) (length x) = rest.
Proof.
  unfold advance. rewrite skipn_app, Nat.sub_diag, skipn_all. reflexivity.
Qed.

Lemma bind_Ok {A B : Type} (r : result A) (k : A -> result B) (y : B) :
  bind r k = Ok y -> exists a, r = Ok a /\ k a = Ok y.
Proof. destruct r; simpl; intros H; try discriminate. eauto. Qed.

(** ** Unfolding equations *)

Lemma deserialize_loop_eq g (fuel : nat) (i size : Z) (range : Range)
    (elements : list Any) :
  deserialize_loop g fuel i size range elements
  = if i <? size then
      match fuel with
      | O => OutOfFuel
      | S fuel' =>
          '(any, range) <- g range ;;
          deserialize_loop g fuel' (wrap64 (i + 1)) size range
            (elements ++ [any])
      end
    else Ok (elements, range).
Proof. destruct fuel; reflexivity. Qed.

Lemma Any_deserialize_fuel_S (fuel : nat) (range : Range) :
  Any_deserialize_fuel (S fuel) range
  = if lt_sizeof (distance range) sizeof_uint64 then Throw TruncatedInput
    else
      data <- read_bytes range 8 ;;
      match TypeId.of_code (fromLittleEndian data) with
      | Some TypeId.Uint =>
          '(value, range) <-
            IntegerType_deserialize (advance range sizeof_uint64) ;;
          Ok (Any_Integer value, range)
      | Some TypeId.Float =>
          '(value, range) <-
            FloatType_deserialize (advance range sizeof_uint64) ;;
          Ok (Any_Float value, range)
      | Some TypeId.String =>
          '(value, range) <-
            StringType_deserialize (advance range sizeof_uint64) ;;
          Ok (Any_String value, range)
      | Some TypeId.Vector =>
          '(value, range) <-
            VectorType_deserialize_with (Any_deserialize_fuel fuel) fuel
              (advance range sizeof_uint64) ;;
          Ok (Any_Vector value, range)
      | None => Throw UnknownTag
      end.
Proof. reflexivity. Qed.

(** ** More fuel never changes an answer *)

Lemma refines_refl {A : Type} (r : result A) : refines r r.
Proof. intros _. reflexivity. Qed.

Lemma refines_bind {A B : Type} (r1 r2 : result A) (k1 k2 : A -> result B) :
  refines r1 r2 -> (forall a, refines (k1 a) (k2 a)) ->
  refines (bind r1 k1) (bind r2 k2).
Proof.
  intros Hr Hk Hne. destruct r1 as [a| | |]; simpl in *.
  - rewrite Hr by discriminate. simpl. apply Hk. exact Hne.
  - rewrite Hr by discriminate. reflexivity.
  - rewrite Hr by discriminate. reflexivity.
  - congruence.
Qed.

Lemma deserialize_loop_mono g1 g2 :
  decoder_refines g1 g2 ->
  forall f1 f2 : nat, (f1 <= f2)%nat ->
  forall i size range elements,
    refines (deserialize_loop g1 f1 i size range elements)
            (deserialize_loop g2 f2 i size range elements).
Proof.
  intros Hg. induction f1 as [|f1 IH]; intros f2 Hle i size range elements;
    rewrite (deserialize_loop_eq g1), (deserialize_loop_eq g2);
    destruct (i <? size); try apply refines_refl.
  - intros Hne. congruence.
  - destruct f2 as [|f2]; [lia|].
    apply refines_bind; [apply Hg|].
    intros [any range']. apply IH. lia.
Qed.

Lemma VectorType_deserialize_with_mono g1 g2 (f1 f2 : nat) (range : Range) :
  decoder_refines g1 g2 -> (f1 <= f2)%nat ->
  refines (VectorType_deserialize_with g1 f1 range)
          (VectorType_deserialize_with g2 f2 range).
Proof.
  intros Hg Hle. unfold VectorType_deserialize_with.
  destruct (lt_sizeof _ _); [apply refines_refl|].
  apply refines_bind; [apply refines_refl|]. intros data.
  apply refines_bind; [|intros [es r]; apply refines_refl].
  apply deserialize_loop_mono; assumption.
Qed.

Lemma Any_deserialize_fuel_mono (f1 : nat) :
  forall f2 : nat, (f1 <= f2)%nat ->
    decoder_refines (Any_deserialize_fuel f1) (Any_deserialize_fuel f2).
Proof.
  induction f1 as [|f1 IH]; intros f2 Hle range.
  - intros Hne. simpl in Hne. congruence.
  - destruct f2 as [|f2]; [lia|].
    rewrite !Any_deserialize_fuel_S.
    destruct (lt_sizeof _ _); [apply refines_refl|].
    apply refines_bind; [apply refines_refl|]. intros data.
    destruct (TypeId.of_code _) as [[| | |]|]; try apply refines_refl.
    apply refines_bind; [|intros [v r]; apply refines_refl].
    apply VectorType_deserialize_with_mono; [apply IH|]; lia.
Qed.

(** ** Every decoder answers, and a success shortens the range *)

Lemma IntegerType_deserialize_Ok (range : Range) v rest :
  IntegerType_deserialize range = Ok (v, rest) ->
  (8 <= length range)%nat
  /\ v = mkIntegerType (fromLittleEndian (firstn 8 range))
  /\ rest = advance range 8.
Proof.
  unfold IntegerType_deserialize.
  destruct (lt_sizeof _ _) eqn:G; [discriminate|].
  apply lt_sizeof_false in G. rewrite read_bytes_8 by exact G. simpl.
  intros H. inversion H. auto.
Qed.

Lemma FloatType_deserialize_Ok (range : Range) v rest :
  FloatType_deserialize range = Ok (v, rest) ->
  (8 <= length range)%nat
  /\ v = mkFloatType (double_of_bits (fromLittleEndian (firstn 8 range)))
  /\ rest = advance range 8.
Proof.
  unfold FloatType_deserialize.
  destruct (lt_sizeof _ _) eqn:G; [discriminate|].
  apply lt_sizeof_false in G. rewrite read_bytes_8 by exact G. simpl.
  intros H. inversion H. auto.
Qed.

Lemma StringType_deserialize_Ok (range : Range) v rest :
  StringType_deserialize range = Ok (v, rest) ->
  let size := fromLittleEndian (firstn 8 range) in
  (8 <= length range)%nat
  /\ 0 <= size <= Z.of_nat (length range) - 8
  /\ v = mkStringType (firstn (Z.to_nat size) (advance range 8))
  /\ rest = advance (advance range 8) (Z.to_nat size).
Proof.
  unfold StringType_deserialize, sizeof_uint64.
  destruct (lt_sizeof _ _) eqn:G; [discriminate|].
  apply lt_sizeof_false in G. rewrite read_bytes_8 by exact G. cbn [bind].
  destruct (distance _ <? to_int64 _); [discriminate|].
  unfold string_assign. destruct (string_max_size <? _); [discriminate|].
  unfold read_bytes.
  destruct ((0 <=? _) && (_ <=? _)) eqn:B; [|discriminate].
  apply andb_true_iff in B. destruct B as [B1 B2].
  apply Z.leb_le in B1, B2. unfold distance in B2.
  rewrite length_advance in B2. cbn [bind].
  intros H. inversion H. repeat split; try lia; auto.
Qed.

Lemma StringType_deserialize_Ok_size (range : Range) v rest :
  StringType_deserialize range = Ok (v, rest) ->
  fromLittleEndian (firstn 8 range) < 2 ^ 63.
Proof.
  unfold StringType_deserialize, sizeof_uint64.
  destruct (lt_sizeof _ _) eqn:G; [discriminate|].
  apply lt_sizeof_false in G. rewrite read_bytes_8 by exact G. cbn [bind].
  destruct (distance _ <? to_int64 _); [discriminate|].
  unfold string_assign, string_max_size.
  destruct (2 ^ 63 - 1 <? _) eqn:M; [discriminate|].
  intros _. apply Z.ltb_ge in M. lia.
Qed.

Lemma IntegerType_deserialize_answers (range : Range) :
  IntegerType_deserialize range <> OutOfFuel.
Proof.
  unfold IntegerType_deserialize, read_bytes.
  destruct (lt_sizeof _ _); [discriminate|].
  destruct (_ && _); discriminate.
Qed.

Lemma FloatType_deserialize_answers (range : Range) :
  FloatType_deserialize range <> OutOfFuel.
Proof.
  unfold FloatType_deserialize, read_bytes.
  destruct (lt_sizeof _ _); [discriminate|].
  destruct (_ && _); discriminate.
Qed.

Lemma StringType_deserialize_answers (range : Range) :
  StringType_deserialize range <> OutOfFuel.
Proof.
  unfold StringType_deserialize.
  destruct (lt_sizeof _ _); [discriminate|].
  unfold read_bytes at 1. destruct (_ && _); [|discriminate]. simpl.
  destruct (distance _ <? _); [discriminate|].
  unfold string_assign. destruct (string_max_size <? _); [discriminate|].
  unfold read_bytes. destruct (_ && _); discriminate.
Qed.

Lemma deserialize_loop_answers g :
  forall (fuel : nat) (i size : Z) (range : Range) (elements : list Any),
    (forall r, (length r <= length range)%nat -> consumes g r) ->
    (length range < fuel)%nat ->
    deserialize_loop g fuel i size range elements <> OutOfFuel
    /\ forall es rest,
         deserialize_loop g fuel i size range elements = Ok (es, rest) ->
         (length rest <= length range)%nat.
Proof.
  induction fuel as [|fuel IH]; intros i size range elements Hg Hf; [lia|].
  rewrite deserialize_loop_eq.
  destruct (i <? size).
  - destruct (Hg range (le_n _)) as [Hne Hlen].
    destruct (g range) as [[any range']| | |] eqn:E; simpl;
      try (split; [discriminate | intros; discriminate]); [|congruence].
    specialize (Hlen any range' eq_refl).
    destruct (IH (wrap64 (i + 1)) size range' (elements ++ [any]))
      as [Hne' Hlen']; [intros r Hr; apply Hg; lia | lia |].
    split; [exact Hne'|].
    intros es rest Hok. specialize (Hlen' es rest Hok). lia.
  - split; [discriminate|]. intros es rest H. inversion H. lia.
Qed.

Lemma VectorType_deserialize_with_answers g (fuel : nat) (range : Range) :
  (forall r, (length r + 8 <= length range)%nat -> consumes g r) ->
  (length range < fuel + 8)%nat ->
  VectorType_deserialize_with g fuel range <> OutOfFuel
  /\ forall v rest,
       VectorType_deserialize_with g fuel range = Ok (v, rest) ->
       (length rest + 8 <= length range)%nat.
Proof.
  intros Hg Hf. unfold VectorType_deserialize_with.
  destruct (lt_sizeof _ _) eqn:G;
    [split; [discriminate | intros; discriminate]|].
  apply lt_sizeof_false in G. rewrite read_bytes_8 by exact G. simpl.
  destruct (deserialize_loop_answers g fuel 0
              (fromLittleEndian (firstn 8 range)) (advance range 8) [])
    as [Hne Hlen].
  - intros r Hr. apply Hg. rewrite length_advance in Hr. lia.
  - rewrite length_advance. lia.
  - destruct (deserialize_loop _ _ _ _ _ _) as [[es r]| | |]; simpl;
      try (split; [discriminate | intros; discriminate]); [|congruence].
    split; [discriminate|]. intros v rest H. inversion H; subst.
    specialize (Hlen es rest eq_refl). rewrite length_advance in Hlen. lia.
Qed.

(** With more fuel than bytes, [Any::deserialize] answers; a decoded
    value has used at least 16 bytes. *)
Lemma Any_deserialize_fuel_consumes (fuel : nat) :
  forall range : Range,
    (length range < fuel)%nat -> consumes (Any_deserialize_fuel fuel) range.
Proof.
  induction fuel as [|fuel IH]; intros range Hf; [lia|].
  unfold consumes. rewrite Any_deserialize_fuel_S.
  destruct (lt_sizeof _ _) eqn:G;
    [split; [discriminate | intros; discriminate]|].
  apply lt_sizeof_false in G. rewrite read_bytes_8 by exact G. simpl.
  pose proof (length_advance range 8) as La.
  destruct (TypeId.of_code _) as [[| | |]|].
  - pose proof (IntegerType_deserialize_answers (advance range 8)) as Hne.
    destruct (IntegerType_deserialize _) as [[x r]| | |] eqn:E; simpl;
      try (split; [discriminate | intros; discriminate]); [|congruence].
    split; [discriminate|]. intros v rest H. inversion H; subst.
    apply IntegerType_deserialize_Ok in E. destruct E as (L & _ & ->).
    rewrite !length_advance in *. lia.
  - pose proof (FloatType_deserialize_answers (advance range 8)) as Hne.
    destruct (FloatType_deserialize _) as [[x r]| | |] eqn:E; simpl;
      try (split; [discriminate | intros; discriminate]); [|congruence].
    split; [discriminate|]. intros v rest H. inversion H; subst.
    apply FloatType_deserialize_Ok in E. destruct E as (L & _ & ->).
    rewrite !length_advance in *. lia.
  - pose proof (StringType_deserialize_answers (advance range 8)) as Hne.
    destruct (StringType_deserialize _) as [[x r]| | |] eqn:E; simpl;
      try (split; [discriminate | intros; discriminate]); [|congruence].
    split; [discriminate|]. intros v rest H. inversion H; subst.
    apply StringType_deserialize_Ok in E. destruct E as (L & _ & _ & ->).
    rewrite !length_advance in *. lia.
  - destruct (VectorType_deserialize_with_answers
                (Any_deserialize_fuel fuel) fuel (advance range 8))
      as [Hne Hlen].
    + intros r Hr. apply IH. lia.
    + lia.
    + destruct (VectorType_deserialize_with _ _ _) as [[x r]| | |]; simpl;
        try (split; [discriminate | intros; discriminate]); [|congruence].
      split; [discriminate|]. intros v rest H. inversion H; subst.
      specialize (Hlen x rest eq_refl). lia.
  - split; [discriminate | intros; discriminate].
Qed.

Lemma Any_deserialize_consumes (range : Range) :
  consumes Any_deserialize range.
Proof.
  apply Any_deserialize_fuel_consumes. unfold enough_fuel. lia.
Qed.

(** Any amount of fuel above the length of the range gives the answer of
    [Any_deserialize]. *)
Lemma Any_deserialize_fuel_enough (fuel : nat) (range : Range) :
  (length range < fuel)%nat ->
  Any_deserialize_fuel fuel range = Any_deserialize range.
Proof.
  intros Hf. unfold Any_deserialize.
  apply (Any_deserialize_fuel_mono (enough_fuel range) fuel);
    [unfold enough_fuel; lia|].
  apply Any_deserialize_consumes.
Qed.

Lemma Any_deserialize_fuel_refines_total (fuel : nat) :
  decoder_refines (Any_deserialize_fuel fuel) Any_deserialize.
Proof.
  intros range Hne.
  destruct (Nat.le_gt_cases fuel (length range)) as [Hle|Hgt].
  - apply (Any_deserialize_fuel_mono fuel (enough_fuel range));
      [unfold enough_fuel; lia | exact Hne].
  - symmetry. apply Any_deserialize_fuel_enough. exact Hgt.
Qed.

(** ** The decoder without fuel

    The equations below are those of the source functions; after them
    no proof mentions fuel. *)

Lemma deserialize_loop_agree g1 g2 (f1 f2 : nat) (i size : Z) (range : Range)
    (elements : list Any) :
  decoder_refines (Any_deserialize_fuel (enough_fuel range)) g1 ->
  decoder_refines (Any_deserialize_fuel (enough_fuel range)) g2 ->
  (length range < f1)%nat -> (length range < f2)%nat ->
  deserialize_loop g1 f1 i size range elements
  = deserialize_loop g2 f2 i size range elements.
Proof.
  intros H1 H2 L1 L2.
  destruct (deserialize_loop_answers
              (Any_deserialize_fuel (enough_fuel range)) (enough_fuel range)
              i size range elements) as [Hne _].
  - intros r Hr. apply Any_deserialize_fuel_consumes. unfold enough_fuel. lia.
  - unfold enough_fuel. lia.
  - rewrite (deserialize_loop_mono _ g1 H1 (enough_fuel range) f1)
      by (unfold enough_fuel; lia || exact Hne).
    rewrite (deserialize_loop_mono _ g2 H2 (enough_fuel range) f2)
      by (unfold enough_fuel; lia || exact Hne).
    reflexivity.
Qed.

Lemma deserialize_loop_enough (fuel : nat) (i size : Z) (range : Range)
    (elements : list Any) :
  (length range < fuel)%nat ->
  deserialize_loop Any_deserialize fuel i size range elements
  = deserialize_elements i size range elements.
Proof.
  intros Hf. unfold deserialize_elements.
  apply deserialize_loop_agree;
    try apply Any_deserialize_fuel_refines_total;
    unfold enough_fuel; lia.
Qed.

Lemma deserialize_elements_eq (i size : Z) (range : Range)
    (elements : list Any) :
  deserialize_elements i size range elements
  = if i <? size then
      '(any, range) <- Any_deserialize range ;;
      deserialize_elements (wrap64 (i + 1)) size range (elements ++ [any])
    else Ok (elements, range).
Proof.
  unfold deserialize_elements at 1. rewrite deserialize_loop_eq.
  destruct (i <? size); [|reflexivity].
  unfold enough_fuel at 1.
  destruct (Any_deserialize_consumes range) as [_ Hlen].
  destruct (Any_deserialize range) as [[any range']| | |]; try reflexivity.
  cbn [bind]. apply deserialize_loop_enough.
  specialize (Hlen any range' eq_refl). lia.
Qed.

Lemma VectorType_deserialize_eq (range : Range) :
  VectorType_deserialize range
  = if lt_sizeof (distance range) sizeof_uint64 then Throw TruncatedInput
    else
      data <- read_bytes range 8 ;;
      '(elements, range) <-
        deserialize_elements 0 (fromLittleEndian data)
          (advance range sizeof_uint64) [] ;;
      Ok (mkVectorType elements, range).
Proof.
  unfold VectorType_deserialize, VectorType_deserialize_with.
  destruct (lt_sizeof _ _); [reflexivity|].
  destruct (read_bytes range 8) as [data| | |]; try reflexivity.
  cbn [bind]. rewrite deserialize_loop_enough; [reflexivity|].
  rewrite length_advance. unfold enough_fuel. lia.
Qed.

Lemma VectorType_deserialize_with_enough (fuel : nat) (range : Range) :
  (length range < fuel + 8)%nat ->
  VectorType_deserialize_with (Any_deserialize_fuel fuel) fuel range
  = VectorType_deserialize range.
Proof.
  intros Hf. rewrite VectorType_deserialize_eq.
  unfold VectorType_deserialize_with.
  destruct (lt_sizeof _ _) eqn:G; [reflexivity|].
  apply lt_sizeof_false in G.
  destruct (read_bytes range 8) as [data| | |]; try reflexivity.
  cbn [bind]. unfold deserialize_elements.
  pose proof (length_advance range sizeof_uint64) as La.
  unfold sizeof_uint64 in *.
  rewrite (deserialize_loop_agree (Any_deserialize_fuel fuel) Any_deserialize
             fuel (enough_fuel (advance range 8))); [reflexivity| | | |].
  - apply Any_deserialize_fuel_mono. unfold enough_fuel. lia.
  - apply Any_deserialize_fuel_refines_total.
  - lia.
  - unfold enough_fuel. lia.
Qed.

Lemma Any_deserialize_eq (range : Range) :
  Any_deserialize range
  = if lt_sizeof (distance range) sizeof_uint64 then Throw TruncatedInput
    else
      data <- read_bytes range 8 ;;
      match TypeId.of_code (fromLittleEndian data) with
      | Some TypeId.Uint =>
          '(value, range) <-
            IntegerType_deserialize (advance range sizeof_uint64) ;;
          Ok (Any_Integer value, range)
      | Some TypeId.Float =>
          '(value, range) <-
            FloatType_deserialize (advance range sizeof_uint64) ;;
          Ok (Any_Float value, range)
      | Some TypeId.String =>
          '(value, range) <-
            StringType_deserialize (advance range sizeof_uint64) ;;
          Ok (Any_String value, range)
      | Some TypeId.Vector =>
          '(value, range) <-
            VectorType_deserialize (advance range sizeof_uint64) ;;
          Ok (Any_Vector value, range)
      | None => Throw UnknownTag
      end.
Proof.
  unfold Any_deserialize, enough_fuel. rewrite Any_deserialize_fuel_S.
  destruct (lt_sizeof _ _); [reflexivity|].
  destruct (read_bytes range 8) as [data| | |]; try reflexivity.
  cbn [bind].
  destruct (TypeId.of_code _) as [[| | |]|]; try reflexivity.
  rewrite VectorType_deserialize_with_enough; [reflexivity|].
  rewrite length_advance. lia.
Qed.

Lemma Serializator_deserialize_eq (buffer : Buffer) :
  Serializator_deserialize buffer
  = if lt_sizeof (distance buffer) sizeof_uint64 then Throw TruncatedInput
    else
      data <- read_bytes buffer 8 ;;
      '(res, _) <-
        deserialize_elements 0 (fromLittleEndian data)
          (advance buffer sizeof_uint64) [] ;;
      Ok res.
Proof. reflexivity. Qed.

Lemma representable_Vector (elements_ : list Any) :
  representable (Any_Vector (mkVectorType elements_))
  = all_representable elements_.
Proof.
  reflexivity.
Qed.

(** ** The serializers in closed form *)

Lemma insert_at_end_variable (buffer : Buffer) (bytes : list byte) :
  insert_at_end buffer (begin_of (variable bytes)) (end_of (variable bytes))
  = Ok (buffer ++ bytes).
Proof.
  unfold insert_at_end, begin_of, end_of, variable. cbn.
  rewrite Nat.sub_0_r, firstn_all. reflexivity.
Qed.

Lemma IntegerType_serialize_eq (self : IntegerType) (buffer : Buffer) :
  IntegerType_serialize self buffer
  = Ok (buffer ++ toLittleEndian (wrap64 (int_value_ self))).
Proof. apply insert_at_end_variable. Qed.

Lemma FloatType_serialize_eq (self : FloatType) (buffer : Buffer) :
  FloatType_serialize self buffer
  = Ok (buffer ++ toLittleEndian (bits_of_double (float_value_ self))).
Proof. apply insert_at_end_variable. Qed.

Lemma StringType_serialize_eq (self : StringType) (buffer : Buffer) :
  StringType_serialize self buffer
  = Ok (buffer
        ++ toLittleEndian (wrap64 (Z.of_nat (length (string_value_ self))))
        ++ string_value_ self).
Proof.
  unfold StringType_serialize. rewrite insert_at_end_variable. cbn [bind].
  rewrite insert_at_end_variable, <- app_assoc. reflexivity.
Qed.

Lemma insert_tag_one_vector_eq (id : TypeId.t) (buffer : Buffer) :
  insert_tag_one_vector id buffer
  = Ok (buffer ++ toLittleEndian (TypeId.code id)).
Proof.
  unfold insert_tag_one_vector. rewrite insert_at_end_variable.
  destruct id; reflexivity.
Qed.

(** The tag of [Any::serialize] is no range, whatever the variant. *)
Lemma insert_tag_invalid (id : TypeId.t) (buffer : Buffer) :
  insert_tag id buffer = Undefined InvalidRange.
Proof. reflexivity. Qed.

Lemma Any_serialize_invalid (self : Any) (buffer : Buffer) :
  Any_serialize self buffer = Undefined InvalidRange.
Proof. destruct self; reflexivity. Qed.

Lemma serialize_each_invalid (e : Any) (l : list Any) (buffer : Buffer) :
  serialize_each insert_tag (e :: l) buffer = Undefined InvalidRange.
Proof.
  cbn [serialize_each]. fold Any_serialize.
  rewrite Any_serialize_invalid. reflexivity.
Qed.

Lemma serialize_each_one_vector (l : list Any) :
  Forall (fun a => forall buffer,
            Any_serialize_with insert_tag_one_vector a buffer
            = Ok (buffer ++ Wire.Value a)) l ->
  forall buffer,
    serialize_each insert_tag_one_vector l buffer
    = Ok (buffer ++ Wire.Values l).
Proof.
  induction 1 as [|a l Ha _ IH]; intros buffer; cbn [serialize_each].
  - rewrite app_nil_r. reflexivity.
  - rewrite Ha. cbn [bind]. rewrite IH, <- app_assoc. reflexivity.
Qed.

(** With the tag appended from one vector, [Any::serialize] appends the
    wire format of the value. *)
Lemma Any_serialize_one_vector (a : Any) :
  representable a = true ->
  forall buffer,
    Any_serialize_with insert_tag_one_vector a buffer
    = Ok (buffer ++ Wire.Value a).
Proof.
  induction a as [v|v|v|elements_ IH] using Any_nested_ind; intros R buffer;
    cbn [Any_serialize_with Wire.Value getPayloadTypeId];
    rewrite insert_tag_one_vector_eq; cbn [bind]; unfold Wire.u64.
  - rewrite IntegerType_serialize_eq, <- app_assoc.
    cbn [representable] in R. apply in_rangeb_true in R.
    rewrite wrap64_small by exact R. reflexivity.
  - rewrite FloatType_serialize_eq, <- app_assoc. unfold bits_of_double.
    cbn [representable] in R. apply in_rangeb_true in R.
    rewrite wrap64_small by exact R. reflexivity.
  - rewrite StringType_serialize_eq, <- app_assoc.
    cbn [representable] in R. apply Z.ltb_lt in R.
    rewrite wrap64_small by (unfold in_range, modulus; lia). reflexivity.
  - rewrite representable_Vector in R. unfold all_representable in R.
    apply andb_true_iff in R. destruct R as [Rn Rall].
    apply Z.ltb_lt in Rn. rewrite forallb_forall in Rall.
    cbn [VectorType_serialize_with]. rewrite insert_at_end_variable.
    cbn [bind]. rewrite wrap64_small by (unfold in_range; lia).
    change (serialize_each insert_tag_one_vector elements_
              ((buffer ++ toLittleEndian (TypeId.code TypeId.Vector))
               ++ toLittleEndian (Z.of_nat (length elements_)))
            = Ok (buffer ++ toLittleEndian (TypeId.code TypeId.Vector)
                    ++ toLittleEndian (Z.of_nat (length elements_))
                    ++ Wire.Values elements_)).
    rewrite serialize_each_one_vector.
    + rewrite <- !app_assoc. reflexivity.
    + rewrite Forall_forall in *. intros a Hin. apply IH; auto.
Qed.

(** ** The decoder inverts the wire format *)

Lemma length_u64 (z : Z) : length (Wire.u64 z) = 8%nat.
Proof. apply length_toLittleEndian. Qed.

Lemma guard_u64 (z : Z) (rest : list byte) :
  lt_sizeof (distance (Wire.u64 z ++ rest)) sizeof_uint64 = false.
Proof. apply lt_sizeof_false. rewrite length_app, length_u64. lia. Qed.

Lemma read_u64 (z : Z) (rest : list byte) :
  read_bytes (Wire.u64 z ++ rest) 8 = Ok (Wire.u64 z).
Proof.
  change 8 with (Z.of_nat 8). rewrite <- (length_u64 z).
  apply read_bytes_app.
Qed.

Lemma advance_u64 (z : Z) (rest : list byte) :
  advance (Wire.u64 z ++ rest) sizeof_uint64 = rest.
Proof.
  unfold sizeof_uint64. rewrite <- (length_u64 z). apply advance_app.
Qed.

Lemma fromLittleEndian_u64 (z : Z) :
  in_range z -> fromLittleEndian (Wire.u64 z) = z.
Proof. apply fromLittleEndian_toLittleEndian. Qed.

Lemma IntegerType_deserialize_wire (n : Z) (rest : list byte) :
  in_range n ->
  IntegerType_deserialize (Wire.u64 n ++ rest) = Ok (mkIntegerType n, rest).
Proof.
  intros Hn. unfold IntegerType_deserialize.
  rewrite guard_u64, read_u64. cbn [bind].
  rewrite fromLittleEndian_u64 by exact Hn. rewrite advance_u64. reflexivity.
Qed.

Lemma FloatType_deserialize_wire (bits : Z) (rest : list byte) :
  in_range bits ->
  FloatType_deserialize (Wire.u64 bits ++ rest)
  = Ok (mkFloatType (mkDouble bits), rest).
Proof.
  intros Hn. unfold FloatType_deserialize.
  change sizeof_double with sizeof_uint64.
  rewrite (guard_u64 bits rest), read_u64. cbn [bind].
  rewrite fromLittleEndian_u64 by exact Hn.
  rewrite (advance_u64 bits rest). reflexivity.
Qed.

Lemma to_int64_small (z : Z) : 0 <= z < 2 ^ 63 -> to_int64 z = z.
Proof.
  intros H. unfold to_int64.
  rewrite wrap64_small by (unfold in_range, modulus; lia).
  destruct (z <? 2 ^ 63) eqn:E; [reflexivity|].
  apply Z.ltb_ge in E. lia.
Qed.

Lemma StringType_deserialize_wire (chars rest : list byte) :
  Z.of_nat (length chars) < 2 ^ 63 ->
  StringType_deserialize (Wire.u64 (Z.of_nat (length chars)) ++ chars ++ rest)
  = Ok (mkStringType chars, rest).
Proof.
  intros Hn. unfold StringType_deserialize.
  rewrite guard_u64, read_u64. cbn [bind].
  rewrite fromLittleEndian_u64 by (unfold in_range, modulus; lia).
  rewrite advance_u64, to_int64_small by lia.
  replace (distance (chars ++ rest) <? Z.of_nat (length chars)) with false
    by (symmetry; apply Z.ltb_ge; unfold distance; rewrite length_app; lia).
  rewrite string_assign_small by exact Hn.
  rewrite read_bytes_app. cbn [bind].
  rewrite Nat2Z.id, advance_app. reflexivity.
Qed.

Lemma deserialize_elements_wire (l : list Any) :
  Forall (fun a => forall rest,
            Any_deserialize (Wire.Value a ++ rest) = Ok (a, rest)) l ->
  forall (i size : Z) (acc : list Any) (rest : list byte),
    0 <= i -> i + Z.of_nat (length l) = size -> size < modulus ->
    deserialize_elements i size (Wire.Values l ++ rest) acc
    = Ok (acc ++ l, rest).
Proof.
  induction 1 as [|a l Ha _ IH]; intros i size acc rest Hi Hsz Hm;
    rewrite deserialize_elements_eq; cbn [length] in Hsz.
  - replace (i <? size) with false by (symmetry; apply Z.ltb_ge; lia).
    rewrite app_nil_r. reflexivity.
  - replace (i <? size) with true by (symmetry; apply Z.ltb_lt; lia).
    unfold Wire.Values. cbn [flat_map]. rewrite <- app_assoc.
    rewrite Ha. cbn [bind].
    rewrite wrap64_small by (unfold in_range; lia).
    fold (Wire.Values l). rewrite IH by lia.
    rewrite <- app_assoc. reflexivity.
Qed.

Lemma of_code_code (id : TypeId.t) : TypeId.of_code (TypeId.code id) = Some id.
Proof. destruct id; reflexivity. Qed.

Lemma in_range_code (id : TypeId.t) : in_range (TypeId.code id).
Proof. destruct id; unfold in_range, modulus; simpl; lia. Qed.

Theorem Any_deserialize_wire (a : Any) :
  representable a = true ->
  forall rest, Any_deserialize (Wire.Value a ++ rest) = Ok (a, rest).
Proof.
  induction a as [[n]|[[bits]]|[chars]|elements_ IH] using Any_nested_ind;
    intros R rest; rewrite Any_deserialize_eq;
    cbn [Wire.Value getPayloadTypeId int_value_ float_value_ bit_pattern
         string_value_];
    rewrite <- app_assoc, guard_u64, read_u64; cbn [bind];
    rewrite fromLittleEndian_u64 by apply in_range_code;
    rewrite of_code_code, advance_u64.
  - cbn [representable int_value_] in R. apply in_rangeb_true in R.
    rewrite IntegerType_deserialize_wire by exact R. reflexivity.
  - cbn [representable float_value_ bit_pattern] in R.
    apply in_rangeb_true in R.
    rewrite FloatType_deserialize_wire by exact R. reflexivity.
  - cbn [representable string_value_] in R. apply Z.ltb_lt in R.
    rewrite <- app_assoc.
    rewrite StringType_deserialize_wire by exact R. reflexivity.
  - rewrite representable_Vector in R. unfold all_representable in R.
    apply andb_true_iff in R. destruct R as [Rn Rall].
    apply Z.ltb_lt in Rn. rewrite forallb_forall in Rall.
    rewrite VectorType_deserialize_eq.
    rewrite <- app_assoc, guard_u64, read_u64. cbn [bind].
    rewrite fromLittleEndian_u64 by (unfold in_range; lia).
    rewrite advance_u64.
    fold (Wire.Values elements_).
    rewrite (deserialize_elements_wire elements_); try lia.
    + reflexivity.
    + rewrite Forall_forall in *. intros a Hin. apply IH; auto.
Qed.

Theorem Serializator_deserialize_wire (l : list Any) (extra : list byte) :
  all_representable l = true ->
  Serializator_deserialize (Wire.Container l ++ extra) = Ok l.
Proof.
  intros R. unfold all_representable in R.
  apply andb_true_iff in R. destruct R as [Rn Rall].
  apply Z.ltb_lt in Rn. rewrite forallb_forall in Rall.
  rewrite Serializator_deserialize_eq. unfold Wire.Container.
  rewrite <- app_assoc, guard_u64, read_u64. cbn [bind].
  rewrite fromLittleEndian_u64 by (unfold in_range; lia).
  rewrite advance_u64.
  rewrite (deserialize_elements_wire l); try lia.
  - reflexivity.
  - rewrite Forall_forall. intros a Hin. apply Any_deserialize_wire; auto.
Qed.

(** With the tag appended from one vector, the container round-trips. *)
Theorem roundtrip_one_vector (C : Serializator) :
  all_representable (storage_ C) = true ->
  exists buffer,
    Serializator_serialize_with insert_tag_one_vector C = Ok buffer
    /\ Serializator_deserialize buffer = Ok (storage_ C).
Proof.
  intros R. exists (Wire.Container (storage_ C)). split.
  - unfold Serializator_serialize_with. rewrite insert_at_end_variable.
    cbn [bind]. unfold all_representable in R.
    apply andb_true_iff in R. destruct R as [Rn Rall].
    apply Z.ltb_lt in Rn. rewrite forallb_forall in Rall.
    rewrite wrap64_small by (unfold in_range; lia).
    rewrite serialize_each_one_vector; [reflexivity|].
    rewrite Forall_forall. intros a Hin.
    apply Any_serialize_one_vector; auto.
  - rewrite <- (app_nil_r (Wire.Container (storage_ C))).
    apply Serializator_deserialize_wire. exact R.
Qed.

(** ** Bytes after a decoded value do not matter *)

Lemma guard_app (range extra : list byte) :
  (8 <= length range)%nat ->
  lt_sizeof (distance (range ++ extra)) sizeof_uint64 = false.
Proof. intros H. apply lt_sizeof_false. rewrite length_app. lia. Qed.

Lemma firstn_app_within (n : nat) (range extra : list byte) :
  (n <= length range)%nat -> firstn n (range ++ extra) = firstn n range.
Proof.
  intros H. rewrite firstn_app.
  replace (n - length range)%nat with 0%nat by lia.
  simpl. apply app_nil_r.
Qed.

Lemma advance_app_within (n : nat) (range extra : list byte) :
  (n <= length range)%nat ->
  advance (range ++ extra) n = advance range n ++ extra.
Proof.
  intros H. unfold advance. rewrite skipn_app.
  replace (n - length range)%nat with 0%nat by lia. reflexivity.
Qed.

Lemma read_bytes_8_app (range extra : list byte) :
  (8 <= length range)%nat ->
  read_bytes (range ++ extra) 8 = Ok (firstn 8 range).
Proof.
  intros H. rewrite read_bytes_8 by (rewrite length_app; lia).
  rewrite firstn_app_within by exact H. reflexivity.
Qed.

Lemma to_int64_le (z : Z) : in_range z -> to_int64 z <= z.
Proof.
  intros H. unfold to_int64. rewrite wrap64_small by exact H.
  unfold in_range, modulus in *. destruct (z <? 2 ^ 63); lia.
Qed.

Lemma IntegerType_deserialize_extend (range extra : list byte) v rest :
  IntegerType_deserialize range = Ok (v, rest) ->
  IntegerType_deserialize (range ++ extra) = Ok (v, rest ++ extra).
Proof.
  intros H. apply IntegerType_deserialize_Ok in H. destruct H as (L & -> & ->).
  unfold IntegerType_deserialize.
  rewrite guard_app, read_bytes_8_app by exact L. cbn [bind].
  unfold sizeof_uint64. rewrite advance_app_within by exact L. reflexivity.
Qed.

Lemma FloatType_deserialize_extend (range extra : list byte) v rest :
  FloatType_deserialize range = Ok (v, rest) ->
  FloatType_deserialize (range ++ extra) = Ok (v, rest ++ extra).
Proof.
  intros H. apply FloatType_deserialize_Ok in H. destruct H as (L & -> & ->).
  unfold FloatType_deserialize. change sizeof_double with sizeof_uint64.
  rewrite guard_app, read_bytes_8_app by exact L. cbn [bind].
  unfold sizeof_uint64. rewrite advance_app_within by exact L. reflexivity.
Qed.

Lemma StringType_deserialize_extend (range extra : list byte) v rest :
  StringType_deserialize range = Ok (v, rest) ->
  StringType_deserialize (range ++ extra) = Ok (v, rest ++ extra).
Proof.
  intros H. pose proof (StringType_deserialize_Ok_size _ _ _ H) as Hmax.
  apply StringType_deserialize_Ok in H. cbv zeta in H.
  destruct H as (L & B & -> & ->).
  unfold StringType_deserialize.
  rewrite guard_app, read_bytes_8_app by exact L. cbn [bind].
  unfold sizeof_uint64. rewrite advance_app_within by exact L.
  set (size := fromLittleEndian (firstn 8 range)) in *.
  assert (Hr : in_range size)
    by (apply fromLittleEndian_range, length_firstn_8, L).
  pose proof (to_int64_le size Hr) as Hi.
  pose proof (length_advance range 8) as La.
  replace (distance (advance range 8 ++ extra) <? to_int64 size) with false
    by (symmetry; apply Z.ltb_ge; unfold distance; rewrite length_app; lia).
  rewrite string_assign_small by exact Hmax.
  unfold read_bytes, distance. rewrite length_app.
  replace (0 <=? size) with true by (symmetry; apply Z.leb_le; lia).
  replace (size <=? Z.of_nat (length (advance range 8) + length extra))
    with true by (symmetry; apply Z.leb_le; lia).
  cbn [andb bind].
  rewrite firstn_app_within, advance_app_within by lia. reflexivity.
Qed.

Lemma deserialize_loop_extend g (extra : list byte) :
  (forall range v rest,
     g range = Ok (v, rest) -> g (range ++ extra) = Ok (v, rest ++ extra)) ->
  forall (fuel : nat) (i size : Z) (range : Range) (acc es : list Any) rest,
    deserialize_loop g fuel i size range acc = Ok (es, rest) ->
    deserialize_loop g fuel i size (range ++ extra) acc
    = Ok (es, rest ++ extra).
Proof.
  intros Hg. induction fuel as [|fuel IH]; intros i size range acc es rest;
    rewrite !deserialize_loop_eq; destruct (i <? size);
    try discriminate;
    try (intros H; inversion H; subst; reflexivity).
  intros H. apply bind_Ok in H. destruct H as ([any range'] & E & H).
  rewrite (Hg _ _ _ E). cbn [bind]. apply IH. exact H.
Qed.

Lemma VectorType_deserialize_with_extend g (extra : list byte) (fuel : nat)
    (range : Range) v rest :
  (forall range v rest,
     g range = Ok (v, rest) -> g (range ++ extra) = Ok (v, rest ++ extra)) ->
  VectorType_deserialize_with g fuel range = Ok (v, rest) ->
  VectorType_deserialize_with g fuel (range ++ extra) = Ok (v, rest ++ extra).
Proof.
  intros Hg. unfold VectorType_deserialize_with.
  destruct (lt_sizeof (distance range) _) eqn:G; [discriminate|].
  apply lt_sizeof_false in G.
  rewrite guard_app, read_bytes_8_app, read_bytes_8 by exact G.
  cbn [bind]. unfold sizeof_uint64.
  rewrite advance_app_within by exact G.
  intros H. apply bind_Ok in H. destruct H as ([es r] & E & H).
  rewrite (deserialize_loop_extend g extra Hg _ _ _ _ _ _ _ E).
  cbn [bind] in *. inversion H; subst. reflexivity.
Qed.

Lemma Any_deserialize_fuel_extend (extra : list byte) (fuel : nat) :
  forall (range : Range) v rest,
    Any_deserialize_fuel fuel range = Ok (v, rest) ->
    Any_deserialize_fuel fuel (range ++ extra) = Ok (v, rest ++ extra).
Proof.
  induction fuel as [|fuel IH]; intros range v rest; [discriminate|].
  rewrite !Any_deserialize_fuel_S.
  destruct (lt_sizeof (distance range) _) eqn:G; [discriminate|].
  apply lt_sizeof_false in G.
  rewrite guard_app, read_bytes_8_app, read_bytes_8 by exact G.
  cbn [bind]. unfold sizeof_uint64.
  rewrite advance_app_within by exact G.
  destruct (TypeId.of_code _) as [[| | |]|]; try discriminate;
    intros H; apply bind_Ok in H; destruct H as ([x r] & E & H);
    cbn [bind] in H; inversion H; subst.
  - rewrite (IntegerType_deserialize_extend _ extra _ _ E). reflexivity.
  - rewrite (FloatType_deserialize_extend _ extra _ _ E). reflexivity.
  - rewrite (StringType_deserialize_extend _ extra _ _ E). reflexivity.
  - rewrite (VectorType_deserialize_with_extend _ extra _ _ _ _ IH E).
    reflexivity.
Qed.

Lemma Any_deserialize_extend (range extra : list byte) v rest :
  Any_deserialize range = Ok (v, rest) ->
  Any_deserialize (range ++ extra) = Ok (v, rest ++ extra).
Proof.
  unfold Any_deserialize at 1. intros H.
  apply (Any_deserialize_fuel_extend extra) in H.
  rewrite <- H. apply Any_deserialize_fuel_refines_total.
  rewrite H. discriminate.
Qed.

Lemma deserialize_elements_extend (extra : list byte) (i size : Z)
    (range : Range) (acc es : list Any) rest :
  deserialize_elements i size range acc = Ok (es, rest) ->
  deserialize_elements i size (range ++ extra) acc = Ok (es, rest ++ extra).
Proof.
  unfold deserialize_elements at 1. intros H.
  apply (deserialize_loop_extend Any_deserialize extra) in H;
    [|intros r v r'; apply Any_deserialize_extend].
  rewrite <- H. unfold deserialize_elements.
  apply deserialize_loop_mono.
  - intros r. apply refines_refl.
  - unfold enough_fuel. rewrite length_app. lia.
  - rewrite H. discriminate.
Qed.

(** C10. When [Serializator::deserialize] succeeds on a buffer, it gives
    the same values on that buffer followed by any further bytes: the
    bytes after the declared count of values are never looked at. *)
Theorem C10_trailing_bytes_ignored (buffer extra : list byte)
    (res : list Any) (H : Serializator_deserialize buffer = Ok res) :
  Serializator_deserialize (buffer ++ extra) = Ok res.
Proof.
  rewrite Serializator_deserialize_eq in *.
  destruct (lt_sizeof (distance buffer) _) eqn:G; [discriminate|].
  apply lt_sizeof_false in G.
  rewrite guard_app, read_bytes_8_app by exact G.
  rewrite read_bytes_8 in H by exact G. cbn [bind] in *.
  unfold sizeof_uint64 in *. rewrite advance_app_within by exact G.
  apply bind_Ok in H. destruct H as ([es r] & E & H).
  rewrite (deserialize_elements_extend extra _ _ _ _ _ _ E). exact H.
Qed.

(** ** Round trip of a container (C1) *)

Lemma Serializator_serialize_nonempty (C : Serializator) :
  storage_ C <> [] -> Serializator_serialize C = Undefined InvalidRange.
Proof.
  intros Hne. unfold Serializator_serialize, Serializator_serialize_with.
  rewrite insert_at_end_variable. cbn [bind].
  destruct (storage_ C) as [|e l]; [congruence|].
  apply serialize_each_invalid.
Qed.

(** C1, at the container holding the single value [Integer(1)]:
    [serialize] does not return a buffer, because [Any::serialize] hands
    [insert] the [begin()] of one temporary vector and the [end()] of
    another; there is nothing to deserialize. The claim asks for the
    round trip, which [roundtrip_one_vector] shows to hold once the tag is
    appended from a single vector. *)
Theorem C1_serialize_is_undefined :
  Serializator_serialize
    (push (mkSerializator []) (Any_Integer (mkIntegerType 1)))
  = Undefined InvalidRange
  /\ forall buffer,
       Serializator_serialize
         (push (mkSerializator []) (Any_Integer (mkIntegerType 1)))
       <> Ok buffer.
Proof.
  assert (E : Serializator_serialize
                (push (mkSerializator []) (Any_Integer (mkIntegerType 1)))
              = Undefined InvalidRange)
    by (apply Serializator_serialize_nonempty; discriminate).
  split; [exact E|]. intros buffer. rewrite E. discriminate.
Qed.

(** ** String decoding (C2) *)

Lemma StringType_deserialize_cases (range : Range) :
  let size := fromLittleEndian (firstn 8 range) in
  let remaining := Z.of_nat (length range) - 8 in
  ((length range < 8)%nat ->
   StringType_deserialize range = Throw TruncatedInput)
  /\ ((8 <= length range)%nat -> remaining < size < 2 ^ 63 ->
      StringType_deserialize range = Throw TruncatedInput)
  /\ ((8 <= length range)%nat -> 2 ^ 63 <= size ->
      StringType_deserialize range = Throw LengthError)
  /\ ((8 <= length range)%nat -> size <= remaining -> size < 2 ^ 63 ->
      StringType_deserialize range
      = Ok (mkStringType (firstn (Z.to_nat size) (advance range 8)),
            advance range (8 + Z.to_nat size))).
Proof.
  intros size remaining. unfold StringType_deserialize, sizeof_uint64.
  split; [intros L; apply lt_sizeof_true in L; rewrite L; reflexivity|].
  assert (Hstep : (8 <= length range)%nat ->
    in_range size
    /\ distance (advance range 8) = remaining
    /\ lt_sizeof (distance range) 8 = false
    /\ read_bytes range 8 = Ok (firstn 8 range)).
  { intros L. split; [apply fromLittleEndian_range, length_firstn_8, L|].
    split; [unfold distance, remaining; rewrite length_advance; lia|].
    split; [apply lt_sizeof_false, L | apply read_bytes_8, L]. }
  split; [|split]; intros L; destruct (Hstep L) as (Hr & Hd & -> & ->);
    cbn [bind]; fold size; rewrite Hd.
  - intros B. rewrite to_int64_small by lia.
    replace (remaining <? size) with true by (symmetry; apply Z.ltb_lt; lia).
    reflexivity.
  - intros B. unfold to_int64. rewrite wrap64_small by exact Hr.
    replace (size <? 2 ^ 63) with false by (symmetry; apply Z.ltb_ge; lia).
    unfold in_range, modulus in Hr.
    replace (remaining <? size - modulus) with false
      by (symmetry; apply Z.ltb_ge; unfold modulus, remaining; lia).
    rewrite string_assign_large by exact B. reflexivity.
  - intros B M. pose proof (to_int64_le size Hr) as Hi.
    replace (remaining <? to_int64 size) with false
      by (symmetry; apply Z.ltb_ge; lia).
    rewrite string_assign_small by exact M.
    unfold read_bytes. rewrite Hd. unfold in_range in Hr.
    replace (0 <=? size) with true by (symmetry; apply Z.leb_le; lia).
    replace (size <=? remaining) with true by (symmetry; apply Z.leb_le; lia).
    cbn [andb bind]. unfold advance.
    rewrite skipn_skipn, (Nat.add_comm (Z.to_nat size) 8). reflexivity.
Qed.

(** C2, at the range of the eight bytes [ff]: the declared length
    [2^64 - 1] exceeds the zero bytes that remain, the guard of line 108
    compares with [static_cast<int64_t>(size) = -1] and lets it pass, and
    the decoder ends with the [std::length_error] of [assign] instead of
    the truncation error. The same happens from the entry point, on a
    container of one String whose length field is [2^63]. The four cases
    of the decoder are in [StringType_deserialize_cases]. *)
Theorem C2_length_guard_is_signed :
  fromLittleEndian
    [Byte.xff; Byte.xff; Byte.xff; Byte.xff;
     Byte.xff; Byte.xff; Byte.xff; Byte.xff] = 2 ^ 64 - 1
  /\ to_int64 (2 ^ 64 - 1) = -1
  /\ StringType_deserialize
       [Byte.xff; Byte.xff; Byte.xff; Byte.xff;
        Byte.xff; Byte.xff; Byte.xff; Byte.xff]
     = Throw LengthError
  /\ StringType_deserialize
       [Byte.xff; Byte.xff; Byte.xff; Byte.xff;
        Byte.xff; Byte.xff; Byte.xff; Byte.xff]
     <> Throw TruncatedInput
  /\ Serializator_deserialize
       (toLittleEndian 1 ++ toLittleEndian 2 ++ toLittleEndian (2 ^ 63))
     = Throw LengthError.
Proof.
  split; [vm_compute; reflexivity|].
  split; [vm_compute; reflexivity|].
  assert (E : StringType_deserialize
                [Byte.xff; Byte.xff; Byte.xff; Byte.xff;
                 Byte.xff; Byte.xff; Byte.xff; Byte.xff]
              = Throw LengthError) by (vm_compute; reflexivity).
  split; [exact E|]. split; [rewrite E; discriminate|].
  rewrite Serializator_deserialize_eq, guard_u64, read_u64. cbn [bind].
  rewrite advance_u64. vm_compute. reflexivity.
Qed.

(** ** Dispatch on the tag (C3) *)

(** C3. With 8 bytes or more in the range, [Any::deserialize] reads the
    discriminant from the first 8; a code other than 0, 1, 2, 3 throws
    [UnknownTag], and the codes 0, 1, 2, 3 hand the rest of the range to
    the decoder of Integer, Float, String and Vector. *)
Theorem C3_tag_dispatch (range : Range) (H : (8 <= length range)%nat) :
  (fromLittleEndian (firstn 8 range) <> 0 ->
   fromLittleEndian (firstn 8 range) <> 1 ->
   fromLittleEndian (firstn 8 range) <> 2 ->
   fromLittleEndian (firstn 8 range) <> 3 ->
   Any_deserialize range = Throw UnknownTag)
  /\ (fromLittleEndian (firstn 8 range) = 0 ->
      Any_deserialize range
      = '(value, rest) <- IntegerType_deserialize (advance range 8) ;;
        Ok (Any_Integer value, rest))
  /\ (fromLittleEndian (firstn 8 range) = 1 ->
      Any_deserialize range
      = '(value, rest) <- FloatType_deserialize (advance range 8) ;;
        Ok (Any_Float value, rest))
  /\ (fromLittleEndian (firstn 8 range) = 2 ->
      Any_deserialize range
      = '(value, rest) <- StringType_deserialize (advance range 8) ;;
        Ok (Any_String value, rest))
  /\ (fromLittleEndian (firstn 8 range) = 3 ->
      Any_deserialize range
      = '(value, rest) <- VectorType_deserialize (advance range 8) ;;
        Ok (Any_Vector value, rest)).
Proof.
  rewrite Any_deserialize_eq. unfold sizeof_uint64.
  rewrite (proj2 (lt_sizeof_false range) H), read_bytes_8 by exact H.
  cbn [bind]. unfold TypeId.of_code.
  repeat split.
  - intros N0 N1 N2 N3.
    rewrite (proj2 (Z.eqb_neq _ _) N0), (proj2 (Z.eqb_neq _ _) N1),
      (proj2 (Z.eqb_neq _ _) N2), (proj2 (Z.eqb_neq _ _) N3).
    reflexivity.
  - intros ->. reflexivity.
  - intros ->. reflexivity.
  - intros ->. reflexivity.
  - intros ->. reflexivity.
Qed.

Lemma C3_tag_dispatch_witness :
  (8 <= length (toLittleEndian 9))%nat
  /\ Any_deserialize (toLittleEndian 9) = Throw UnknownTag.
Proof.
  assert (H : (8 <= length (toLittleEndian 9))%nat) by (vm_compute; lia).
  split; [exact H|].
  apply (C3_tag_dispatch (toLittleEndian 9) H); vm_compute; discriminate.
Defined.

(** ** Exact layout of the payloads (C4) *)

Lemma VectorType_serialize_empty (buffer : Buffer) :
  VectorType_serialize (mkVectorType []) buffer
  = Ok (buffer ++ toLittleEndian 0).
Proof.
  unfold VectorType_serialize. cbn [VectorType_serialize_with].
  rewrite insert_at_end_variable. reflexivity.
Qed.

(** C4. [Integer(1)] appends [01 00 00 00 00 00 00 00]; [String("ab")]
    appends [02 00 00 00 00 00 00 00 61 62]; the empty [Vector] appends
    eight zero bytes and nothing else. *)
Theorem C4_exact_byte_layout (buffer : Buffer) :
  IntegerType_serialize (mkIntegerType 1) buffer
  = Ok (buffer ++ [Byte.x01; Byte.x00; Byte.x00; Byte.x00;
                   Byte.x00; Byte.x00; Byte.x00; Byte.x00])
  /\ StringType_serialize (mkStringType [Byte.x61; Byte.x62]) buffer
     = Ok (buffer ++ [Byte.x02; Byte.x00; Byte.x00; Byte.x00;
                      Byte.x00; Byte.x00; Byte.x00; Byte.x00;
                      Byte.x61; Byte.x62])
  /\ VectorType_serialize (mkVectorType []) buffer
     = Ok (buffer ++ [Byte.x00; Byte.x00; Byte.x00; Byte.x00;
                      Byte.x00; Byte.x00; Byte.x00; Byte.x00]).
Proof.
  split; [|split].
  - rewrite IntegerType_serialize_eq. reflexivity.
  - rewrite StringType_serialize_eq. reflexivity.
  - rewrite VectorType_serialize_empty. reflexivity.
Qed.

(** ** The tag on encode and on decode (C5) *)

Lemma tag_codes :
  TypeId.code TypeId.Uint = 0 /\ TypeId.code TypeId.Float = 1
  /\ TypeId.code TypeId.String = 2 /\ TypeId.code TypeId.Vector = 3.
Proof. repeat split. Qed.

(** The bytes of a tag code followed by a payload decode, when they
    decode, to the variant of that code. *)
Lemma tag_selects_variant (a a' : Any) (payload rest : list byte) :
  Any_deserialize
    (toLittleEndian (TypeId.code (getPayloadTypeId a)) ++ payload)
  = Ok (a', rest) ->
  getPayloadTypeId a' = getPayloadTypeId a.
Proof.
  rewrite Any_deserialize_eq.
  rewrite (guard_u64 _ payload), (read_u64 _ payload). cbn [bind].
  rewrite (fromLittleEndian_u64 _ (in_range_code _)), of_code_code.
  destruct (getPayloadTypeId a); intros H; apply bind_Ok in H;
    destruct H as ([x r] & _ & H); inversion H; reflexivity.
Qed.

(** C5, at one value of each variant: [Any::serialize] writes no tag at
    all, its [insert] being called with iterators of two different
    vectors. The codes themselves are those of the claim ([tag_codes]) and
    the decoder maps them back ([of_code_code], [tag_selects_variant]). *)
Theorem C5_tag_is_not_written :
  Any_serialize (Any_Integer (mkIntegerType 1)) [] = Undefined InvalidRange
  /\ Any_serialize (Any_Float (mkFloatType (mkDouble 0))) []
     = Undefined InvalidRange
  /\ Any_serialize (Any_String (mkStringType [Byte.x61])) []
     = Undefined InvalidRange
  /\ Any_serialize (Any_Vector (mkVectorType [])) [] = Undefined InvalidRange.
Proof. repeat split. Qed.

(** ** Doubles travel as bit patterns (C7) *)

(** C7. A [FloatType] holding the 64-bit pattern [bits] appends the
    little-endian bytes of [bits], and decoding those bytes gives a
    [FloatType] with the pattern [bits] again, whatever the pattern. *)
Theorem C7_float_bit_pattern (bits : Z) (H : in_range bits)
    (buffer rest : list byte) :
  FloatType_serialize (mkFloatType (mkDouble bits)) buffer
  = Ok (buffer ++ toLittleEndian bits)
  /\ FloatType_deserialize (toLittleEndian bits ++ rest)
     = Ok (mkFloatType (mkDouble bits), rest).
Proof.
  split.
  - rewrite FloatType_serialize_eq. unfold bits_of_double. cbn [float_value_
      bit_pattern]. rewrite wrap64_small by exact H. reflexivity.
  - apply (FloatType_deserialize_wire bits rest H).
Qed.

(** The pattern [7ff0000000000001] is a signalling NaN with payload 1. *)
Lemma C7_float_bit_pattern_witness :
  in_range 9218868437227405313
  /\ FloatType_serialize (mkFloatType (mkDouble 9218868437227405313)) []
     = Ok ([] ++ toLittleEndian 9218868437227405313)
  /\ FloatType_deserialize (toLittleEndian 9218868437227405313 ++ [])
     = Ok (mkFloatType (mkDouble 9218868437227405313), []).
Proof.
  assert (H : in_range 9218868437227405313)
    by (unfold in_range, modulus; lia).
  split; [exact H|].
  exact (C7_float_bit_pattern 9218868437227405313 H [] []).
Defined.

(** ** An inner failure aborts the enclosing decode (C8) *)

Lemma deserialize_elements_after (k : nat) :
  forall (range : Range) (i size : Z) (acc vs : list Any) (r : Range),
    decode_values k range = Ok (vs, r) ->
    0 <= i -> i + Z.of_nat k <= size -> size < modulus ->
    deserialize_elements i size range acc
    = deserialize_elements (i + Z.of_nat k) size r (acc ++ vs).
Proof.
  induction k as [|k IH]; intros range i size acc vs r Hdec Hi Hk Hm.
  - cbn [decode_values] in Hdec. inversion Hdec; subst.
    rewrite Z.add_0_r, app_nil_r. reflexivity.
  - cbn [decode_values] in Hdec.
    apply bind_Ok in Hdec. destruct Hdec as ([v r1] & E1 & Hdec).
    apply bind_Ok in Hdec. destruct Hdec as ([vs' r'] & E2 & Hdec).
    inversion Hdec; subst.
    rewrite deserialize_elements_eq.
    replace (i <? size) with true by (symmetry; apply Z.ltb_lt; lia).
    rewrite E1. cbn [bind].
    rewrite wrap64_small by (unfold in_range; lia).
    rewrite (IH r1 (i + 1) size (acc ++ [v]) vs' r E2) by lia.
    rewrite <- app_assoc. f_equal. lia.
Qed.

Lemma deserialize_elements_fails (k : nat) (range : Range) (size : Z)
    (vs : list Any) (r : Range) (e : Error) :
  decode_values k range = Ok (vs, r) ->
  Z.of_nat k < size -> size < modulus ->
  Any_deserialize r = Throw e ->
  deserialize_elements 0 size range [] = Throw e.
Proof.
  intros Hdec Hk Hm Hfail.
  rewrite (deserialize_elements_after k range 0 size [] vs r Hdec) by lia.
  rewrite deserialize_elements_eq.
  replace (0 + Z.of_nat k <? size) with true
    by (symmetry; apply Z.ltb_lt; lia).
  rewrite Hfail. reflexivity.
Qed.

(** The outcome of an enclosing decode whose element [k + 1] throws. *)
Lemma inner_failure_outcome (range : Range) (k : nat) (vs : list Any)
    (r : Range) (e : Error)
    (Hlen : (8 <= length range)%nat)
    (Hk : Z.of_nat k < fromLittleEndian (firstn 8 range))
    (Hdec : decode_values k (advance range 8) = Ok (vs, r))
    (Hfail : Any_deserialize r = Throw e) :
  VectorType_deserialize range = Throw e
  /\ Any_deserialize (toLittleEndian 3 ++ range) = Throw e
  /\ Serializator_deserialize range = Throw e
  /\ (forall payload e',
        IntegerType_deserialize payload = Throw e' ->
        Any_deserialize (toLittleEndian 0 ++ payload) = Throw e')
  /\ (forall payload e',
        FloatType_deserialize payload = Throw e' ->
        Any_deserialize (toLittleEndian 1 ++ payload) = Throw e')
  /\ (forall payload e',
        StringType_deserialize payload = Throw e' ->
        Any_deserialize (toLittleEndian 2 ++ payload) = Throw e').
Proof.
  assert (Hm : fromLittleEndian (firstn 8 range) < modulus)
    by (apply fromLittleEndian_range, length_firstn_8, Hlen).
  pose proof (deserialize_elements_fails k _ _ vs r e Hdec Hk Hm Hfail) as E.
  assert (HV : VectorType_deserialize range = Throw e).
  { rewrite VectorType_deserialize_eq. unfold sizeof_uint64.
    rewrite (proj2 (lt_sizeof_false range) Hlen), read_bytes_8 by exact Hlen.
    cbn [bind]. rewrite E. reflexivity. }
  assert (Htag : forall (id : TypeId.t) payload,
    Any_deserialize (toLittleEndian (TypeId.code id) ++ payload)
    = match id with
      | TypeId.Uint =>
          '(value, rest) <- IntegerType_deserialize payload ;;
          Ok (Any_Integer value, rest)
      | TypeId.Float =>
          '(value, rest) <- FloatType_deserialize payload ;;
          Ok (Any_Float value, rest)
      | TypeId.String =>
          '(value, rest) <- StringType_deserialize payload ;;
          Ok (Any_String value, rest)
      | TypeId.Vector =>
          '(value, rest) <- VectorType_deserialize payload ;;
          Ok (Any_Vector value, rest)
      end).
  { intros id payload. rewrite Any_deserialize_eq.
    rewrite (guard_u64 _ payload), (read_u64 _ payload). cbn [bind].
    rewrite (fromLittleEndian_u64 _ (in_range_code id)), of_code_code.
    rewrite (advance_u64 _ payload). destruct id; reflexivity. }
  split; [exact HV|]. split; [|split; [|split; [|split]]].
  - pose proof (Htag TypeId.Vector range) as T. cbn [TypeId.code] in T.
    rewrite T, HV. reflexivity.
  - rewrite Serializator_deserialize_eq. unfold sizeof_uint64.
    rewrite (proj2 (lt_sizeof_false range) Hlen), read_bytes_8 by exact Hlen.
    cbn [bind]. rewrite E. reflexivity.
  - intros payload e' H. pose proof (Htag TypeId.Uint payload) as T.
    cbn [TypeId.code] in T. rewrite T, H. reflexivity.
  - intros payload e' H. pose proof (Htag TypeId.Float payload) as T.
    cbn [TypeId.code] in T. rewrite T, H. reflexivity.
  - intros payload e' H. pose proof (Htag TypeId.String payload) as T.
    cbn [TypeId.code] in T. rewrite T, H. reflexivity.
Qed.

Lemma deserialize_loop_on_eq g (fuel : nat) (i size : Z) (range : Range)
    (elements_ : list Any) :
  deserialize_loop_on g fuel i size range elements_
  = if i <? size then
      match fuel with
      | O => (elements_, OutOfFuel)
      | S fuel' =>
          match g range with
          | Ok (any, range) =>
              deserialize_loop_on g fuel' (wrap64 (i + 1)) size range
                (elements_ ++ [any])
          | Throw e => (elements_, Throw e)
          | Undefined u => (elements_, Undefined u)
          | OutOfFuel => (elements_, OutOfFuel)
          end
      end
    else (elements_, Ok range).
Proof. destruct fuel; reflexivity. Qed.

(** The loop on the member gives the outcome of the value-returning
    loop. *)
Lemma deserialize_loop_on_outcome g (fuel : nat) :
  forall (i size : Z) (range : Range) (elements_ : list Any),
    outcome_of (deserialize_loop_on g fuel i size range elements_)
    = deserialize_loop g fuel i size range elements_.
Proof.
  induction fuel as [|fuel IH]; intros i size range elements_;
    rewrite deserialize_loop_on_eq, deserialize_loop_eq;
    destruct (i <? size); try reflexivity.
  destruct (g range) as [[any r]| | |]; cbn [bind]; try reflexivity.
  apply IH.
Qed.

Lemma VectorType_deserialize_on_outcome (self : VectorType) (range : Range) :
  outcome_of (VectorType_deserialize_on self range)
  = VectorType_deserialize range.
Proof.
  unfold VectorType_deserialize_on, VectorType_deserialize,
    VectorType_deserialize_with.
  destruct (lt_sizeof _ _); [reflexivity|].
  destruct (read_bytes range 8) as [data| | |]; try reflexivity.
  cbn [bind].
  rewrite (deserialize_loop_enough (enough_fuel range))
    by (rewrite length_advance; unfold enough_fuel; lia).
  unfold deserialize_elements.
  rewrite <- deserialize_loop_on_outcome.
  destruct (deserialize_loop_on _ _ _ _ _ _) as [es [r| | |]]; reflexivity.
Qed.

Lemma Any_deserialize_on_outcome (self : Any) (range : Range) :
  outcome_of (Any_deserialize_on self range) = Any_deserialize range.
Proof.
  unfold Any_deserialize_on.
  destruct (Any_deserialize range) as [[a r]| | |]; reflexivity.
Qed.

(** After [k] decoded elements the member holds them. *)
Lemma deserialize_loop_on_after (size : Z) (k : nat) :
  forall (range : Range) (i : Z) (acc vs : list Any) (r : Range)
         (fuel : nat),
    decode_values k range = Ok (vs, r) ->
    0 <= i -> i + Z.of_nat k <= size -> size < modulus ->
    (length range < fuel)%nat ->
    exists fuel' : nat,
      (length r < fuel')%nat
      /\ deserialize_loop_on Any_deserialize fuel i size range acc
         = deserialize_loop_on Any_deserialize fuel' (i + Z.of_nat k) size r
             (acc ++ vs).
Proof.
  induction k as [|k IH]; intros range i acc vs r fuel Hdec Hi Hk Hm Hf.
  - cbn [decode_values] in Hdec. inversion Hdec; subst.
    exists fuel. rewrite Z.add_0_r, app_nil_r. auto.
  - cbn [decode_values] in Hdec.
    apply bind_Ok in Hdec. destruct Hdec as ([v r1] & E1 & Hdec).
    apply bind_Ok in Hdec. destruct Hdec as ([vs' r'] & E2 & Hdec).
    inversion Hdec; subst.
    destruct (Any_deserialize_consumes range) as [_ Hlen].
    specialize (Hlen v r1 E1).
    destruct fuel as [|fuel]; [lia|].
    destruct (IH r1 (i + 1) (acc ++ [v]) vs' r fuel E2)
      as (fuel' & Hf' & E); try lia.
    exists fuel'. split; [exact Hf'|].
    rewrite deserialize_loop_on_eq.
    replace (i <? size) with true by (symmetry; apply Z.ltb_lt; lia).
    rewrite E1, wrap64_small by (unfold in_range; lia).
    rewrite E, <- app_assoc. f_equal. lia.
Qed.

(** C8. Let the count field of [range] announce more than [k] values,
    let [k] values decode one after the other, and let the decoder of the
    next one throw [e]. Then [VectorType::deserialize] throws [e] and
    leaves in its object exactly the [k] values decoded so far, whatever
    the object held before; [Any::deserialize] on the Vector tag followed
    by [range] throws [e] and leaves its object as it was, and so it does
    with what the decoder of a scalar payload throws;
    [Serializator::deserialize] throws [e] and returns no list. *)
Theorem C8_inner_failure_propagates (self : VectorType) (this : Any)
    (range : Range) (k : nat) (vs : list Any) (r : Range) (e : Error)
    (Hlen : (8 <= length range)%nat)
    (Hk : Z.of_nat k < fromLittleEndian (firstn 8 range))
    (Hdec : decode_values k (advance range 8) = Ok (vs, r))
    (Hfail : Any_deserialize r = Throw e) :
  VectorType_deserialize_on self range = (mkVectorType vs, Throw e)
  /\ Any_deserialize_on this (toLittleEndian 3 ++ range) = (this, Throw e)
  /\ Serializator_deserialize range = Throw e
  /\ (forall payload e',
        IntegerType_deserialize payload = Throw e' ->
        Any_deserialize_on this (toLittleEndian 0 ++ payload)
        = (this, Throw e'))
  /\ (forall payload e',
        FloatType_deserialize payload = Throw e' ->
        Any_deserialize_on this (toLittleEndian 1 ++ payload)
        = (this, Throw e'))
  /\ (forall payload e',
        StringType_deserialize payload = Throw e' ->
        Any_deserialize_on this (toLittleEndian 2 ++ payload)
        = (this, Throw e')).
Proof.
  destruct (inner_failure_outcome range k vs r e Hlen Hk Hdec Hfail)
    as (_ & HA & HC & HI & HF & HS).
  assert (Hm : fromLittleEndian (firstn 8 range) < modulus)
    by (apply fromLittleEndian_range, length_firstn_8, Hlen).
  split; [|split; [|split; [exact HC|split; [|split]]]].
  - unfold VectorType_deserialize_on, sizeof_uint64.
    rewrite (proj2 (lt_sizeof_false range) Hlen), read_bytes_8 by exact Hlen.
    destruct (deserialize_loop_on_after (fromLittleEndian (firstn 8 range))
                k (advance range 8) 0 [] vs r
                (enough_fuel (advance range 8)) Hdec)
      as (fuel' & Hf' & E); try lia; [unfold enough_fuel; lia|].
    rewrite E, deserialize_loop_on_eq.
    replace (0 + Z.of_nat k <? fromLittleEndian (firstn 8 range)) with true
      by (symmetry; apply Z.ltb_lt; lia).
    destruct fuel' as [|fuel']; [lia|]. rewrite Hfail. reflexivity.
  - unfold Any_deserialize_on. rewrite HA. reflexivity.
  - intros payload e' H. unfold Any_deserialize_on.
    rewrite (HI payload e' H). reflexivity.
  - intros payload e' H. unfold Any_deserialize_on.
    rewrite (HF payload e' H). reflexivity.
  - intros payload e' H. unfold Any_deserialize_on.
    rewrite (HS payload e' H). reflexivity.
Qed.

Lemma C8_inner_failure_propagates_witness :
  (8 <= length sample_truncated)%nat
  /\ Z.of_nat 1 < fromLittleEndian (firstn 8 sample_truncated)
  /\ decode_values 1 (advance sample_truncated 8)
     = Ok ([Any_Integer (mkIntegerType 5)], [Byte.x03])
  /\ Any_deserialize [Byte.x03] = Throw TruncatedInput
  /\ VectorType_deserialize_on
       (mkVectorType [Any_Float (mkFloatType (mkDouble 0))]) sample_truncated
     = (mkVectorType [Any_Integer (mkIntegerType 5)], Throw TruncatedInput)
  /\ Any_deserialize_on (Any_Integer (mkIntegerType 9))
       (toLittleEndian 3 ++ sample_truncated)
     = (Any_Integer (mkIntegerType 9), Throw TruncatedInput)
  /\ Serializator_deserialize sample_truncated = Throw TruncatedInput.
Proof.
  assert (H1 : (8 <= length sample_truncated)%nat) by (vm_compute; lia).
  assert (H2 : Z.of_nat 1 < fromLittleEndian (firstn 8 sample_truncated))
    by (vm_compute; reflexivity).
  assert (H3 : decode_values 1 (advance sample_truncated 8)
               = Ok ([Any_Integer (mkIntegerType 5)], [Byte.x03]))
    by (vm_compute; reflexivity).
  assert (H4 : Any_deserialize [Byte.x03] = Throw TruncatedInput)
    by (vm_compute; reflexivity).
  pose proof (C8_inner_failure_propagates
                (mkVectorType [Any_Float (mkFloatType (mkDouble 0))])
                (Any_Integer (mkIntegerType 9)) sample_truncated 1
                [Any_Integer (mkIntegerType 5)] [Byte.x03] TruncatedInput
                H1 H2 H3 H4) as (A & B & C & _).
  repeat split; assumption.
Defined.

(** C8 as it was stated fails for [VectorType::deserialize]: on a range
    that declares two values and holds one, the call throws and leaves
    the vector, empty before the call, holding the one decoded value. *)
Lemma C8_vector_left_partly_filled :
  fromLittleEndian (firstn 8 sample_truncated) = 2
  /\ VectorType_deserialize_on (mkVectorType []) sample_truncated
     = (mkVectorType [Any_Integer (mkIntegerType 5)], Throw TruncatedInput)
  /\ getElements
       (fst (VectorType_deserialize_on (mkVectorType []) sample_truncated))
     <> [].
Proof.
  assert (E : VectorType_deserialize_on (mkVectorType []) sample_truncated
              = (mkVectorType [Any_Integer (mkIntegerType 5)],
                 Throw TruncatedInput)) by (vm_compute; reflexivity).
  split; [vm_compute; reflexivity|]. split; [exact E|].
  rewrite E. discriminate.
Qed.

(** ** The recursive decode terminates (C9) *)

Lemma deserialize_elements_answers (i size : Z) (range : Range)
    (acc : list Any) :
  deserialize_elements i size range acc <> OutOfFuel
  /\ forall es rest,
       deserialize_elements i size range acc = Ok (es, rest) ->
       (length rest <= length range)%nat.
Proof.
  apply deserialize_loop_answers.
  - intros r _. apply Any_deserialize_consumes.
  - unfold enough_fuel. lia.
Qed.

Lemma VectorType_deserialize_answers (range : Range) :
  VectorType_deserialize range <> OutOfFuel
  /\ forall v rest,
       VectorType_deserialize range = Ok (v, rest) ->
       (length rest + 8 <= length range)%nat.
Proof.
  apply VectorType_deserialize_with_answers.
  - intros r _. apply Any_deserialize_consumes.
  - unfold enough_fuel. lia.
Qed.

Lemma Serializator_deserialize_answers (buffer : Buffer) :
  Serializator_deserialize buffer <> OutOfFuel.
Proof.
  rewrite Serializator_deserialize_eq.
  destruct (lt_sizeof _ _); [discriminate|].
  unfold read_bytes. destruct (_ && _); [|discriminate]. cbn [bind].
  destruct (deserialize_elements_answers 0
              (fromLittleEndian (firstn (Z.to_nat 8) buffer))
              (advance buffer sizeof_uint64) []) as [Hne _].
  destruct (deserialize_elements _ _ _ _) as [[es r]| | |];
    cbn [bind]; congruence.
Qed.

(** *** The decoders stay inside the buffer *)

Lemma IntegerType_deserialize_defined (range : Range) u :
  IntegerType_deserialize range <> Undefined u.
Proof.
  unfold IntegerType_deserialize.
  destruct (lt_sizeof _ _) eqn:G; [discriminate|].
  apply lt_sizeof_false in G. rewrite read_bytes_8 by exact G. discriminate.
Qed.

Lemma FloatType_deserialize_defined (range : Range) u :
  FloatType_deserialize range <> Undefined u.
Proof.
  unfold FloatType_deserialize.
  destruct (lt_sizeof _ _) eqn:G; [discriminate|].
  apply lt_sizeof_false in G. rewrite read_bytes_8 by exact G. discriminate.
Qed.

Lemma StringType_deserialize_defined (range : Range) u :
  StringType_deserialize range <> Undefined u.
Proof.
  destruct (StringType_deserialize_cases range) as (C1 & C2 & C3 & C4).
  cbv zeta in *.
  destruct (Nat.lt_ge_cases (length range) 8) as [L|L];
    [rewrite C1 by exact L; discriminate|].
  destruct (Z.lt_ge_cases (fromLittleEndian (firstn 8 range)) (2 ^ 63))
    as [S|S]; [|rewrite C3 by assumption; discriminate].
  destruct (Z.le_gt_cases (fromLittleEndian (firstn 8 range))
              (Z.of_nat (length range) - 8)) as [B|B].
  - rewrite C4 by assumption. discriminate.
  - rewrite C2 by (assumption || lia). discriminate.
Qed.

Lemma deserialize_loop_defined g :
  (forall range u, g range <> Undefined u) ->
  forall (fuel : nat) (i size : Z) (range : Range) (acc : list Any) u,
    deserialize_loop g fuel i size range acc <> Undefined u.
Proof.
  intros Hg. induction fuel as [|fuel IH]; intros i size range acc u;
    rewrite deserialize_loop_eq; destruct (i <? size); try discriminate.
  specialize (Hg range).
  destruct (g range) as [[any r]| | |]; cbn [bind]; try discriminate.
  - apply IH.
  - intros H. apply (Hg u0). reflexivity.
Qed.

Lemma VectorType_deserialize_with_defined g (fuel : nat) (range : Range) u :
  (forall range u, g range <> Undefined u) ->
  VectorType_deserialize_with g fuel range <> Undefined u.
Proof.
  intros Hg. unfold VectorType_deserialize_with.
  destruct (lt_sizeof _ _) eqn:G; [discriminate|].
  apply lt_sizeof_false in G. rewrite read_bytes_8 by exact G. cbn [bind].
  pose proof (deserialize_loop_defined g Hg fuel 0
                (fromLittleEndian (firstn 8 range))
                (advance range sizeof_uint64) []) as D.
  destruct (deserialize_loop _ _ _ _ _ _) as [[es r]| | |]; cbn [bind];
    try discriminate.
  intros H. apply (D u0). reflexivity.
Qed.

Lemma Any_deserialize_fuel_defined (fuel : nat) :
  forall (range : Range) u, Any_deserialize_fuel fuel range <> Undefined u.
Proof.
  induction fuel as [|fuel IH]; intros range u; [discriminate|].
  rewrite Any_deserialize_fuel_S.
  destruct (lt_sizeof _ _) eqn:G; [discriminate|].
  apply lt_sizeof_false in G. rewrite read_bytes_8 by exact G. cbn [bind].
  destruct (TypeId.of_code _) as [[| | |]|]; try discriminate.
  - pose proof (IntegerType_deserialize_defined
                  (advance range sizeof_uint64)) as D.
    destruct (IntegerType_deserialize _) as [[x r]| | |]; cbn [bind];
      try discriminate. intros H. apply (D u0). reflexivity.
  - pose proof (FloatType_deserialize_defined
                  (advance range sizeof_uint64)) as D.
    destruct (FloatType_deserialize _) as [[x r]| | |]; cbn [bind];
      try discriminate. intros H. apply (D u0). reflexivity.
  - pose proof (StringType_deserialize_defined
                  (advance range sizeof_uint64)) as D.
    destruct (StringType_deserialize _) as [[x r]| | |]; cbn [bind];
      try discriminate. intros H. apply (D u0). reflexivity.
  - pose proof (fun u => VectorType_deserialize_with_defined
                  (Any_deserialize_fuel fuel) fuel
                  (advance range sizeof_uint64) u IH) as D.
    destruct (VectorType_deserialize_with _ _ _) as [[x r]| | |]; cbn [bind];
      try discriminate. intros H. apply (D u0). reflexivity.
Qed.

Lemma Any_deserialize_defined (range : Range) u :
  Any_deserialize range <> Undefined u.
Proof. apply Any_deserialize_fuel_defined. Qed.

Lemma Serializator_deserialize_defined (buffer : Buffer) u :
  Serializator_deserialize buffer <> Undefined u.
Proof.
  rewrite Serializator_deserialize_eq.
  destruct (lt_sizeof _ _) eqn:G; [discriminate|].
  apply lt_sizeof_false in G. rewrite read_bytes_8 by exact G. cbn [bind].
  pose proof (deserialize_loop_defined Any_deserialize
                Any_deserialize_defined
                (enough_fuel (advance buffer sizeof_uint64)) 0
                (fromLittleEndian (firstn 8 buffer))
                (advance buffer sizeof_uint64) []) as D.
  unfold deserialize_elements.
  destruct (deserialize_loop _ _ _ _ _ _) as [[es r]| | |]; cbn [bind];
    try discriminate.
  intros H. apply (D u0). reflexivity.
Qed.

(** *** Fuel for one sixteenth of the bytes *)

Lemma deserialize_loop_answers_16 g :
  forall (fuel : nat) (i size : Z) (range : Range) (elements : list Any),
    (forall r, (length r <= length range)%nat -> consumes g r) ->
    (length range < 16 * fuel)%nat ->
    deserialize_loop g fuel i size range elements <> OutOfFuel
    /\ forall es rest,
         deserialize_loop g fuel i size range elements = Ok (es, rest) ->
         (length rest <= length range)%nat.
Proof.
  induction fuel as [|fuel IH]; intros i size range elements Hg Hf; [lia|].
  rewrite deserialize_loop_eq.
  destruct (i <? size).
  - destruct (Hg range (le_n _)) as [Hne Hlen].
    destruct (g range) as [[any range']| | |] eqn:E; cbn [bind];
      try (split; [discriminate | intros; discriminate]); [|congruence].
    specialize (Hlen any range' eq_refl).
    destruct (IH (wrap64 (i + 1)) size range' (elements ++ [any]))
      as [Hne' Hlen']; [intros r Hr; apply Hg; lia | lia |].
    split; [exact Hne'|].
    intros es rest Hok. specialize (Hlen' es rest Hok). lia.
  - split; [discriminate|]. intros es rest H. inversion H. lia.
Qed.

Lemma VectorType_deserialize_with_answers_16 g (fuel : nat) (range : Range) :
  (forall r, (length r + 8 <= length range)%nat -> consumes g r) ->
  (length range < 16 * fuel + 8)%nat ->
  VectorType_deserialize_with g fuel range <> OutOfFuel.
Proof.
  intros Hg Hf. unfold VectorType_deserialize_with.
  destruct (lt_sizeof _ _) eqn:G; [discriminate|].
  apply lt_sizeof_false in G. rewrite read_bytes_8 by exact G. cbn [bind].
  destruct (deserialize_loop_answers_16 g fuel 0
              (fromLittleEndian (firstn 8 range))
              (advance range sizeof_uint64) [])
    as [Hne _].
  - intros r Hr. apply Hg. rewrite length_advance in Hr.
    unfold sizeof_uint64 in Hr. lia.
  - rewrite length_advance. unfold sizeof_uint64. lia.
  - destruct (deserialize_loop _ _ _ _ _ _) as [[es r]| | |]; cbn [bind];
      congruence.
Qed.

(** The fuel of [Any_deserialize_fuel] goes down by one with every
    nested call, so it bounds the depth of the recursion: one level for
    every 16 bytes is enough. *)
Lemma Any_deserialize_fuel_depth (fuel : nat) :
  forall range : Range,
    (length range < 16 * fuel)%nat ->
    Any_deserialize_fuel fuel range = Any_deserialize range.
Proof.
  induction fuel as [|fuel IH]; intros range Hf; [lia|].
  symmetry. apply Any_deserialize_fuel_refines_total.
  rewrite Any_deserialize_fuel_S.
  destruct (lt_sizeof _ _) eqn:G; [discriminate|].
  apply lt_sizeof_false in G. rewrite read_bytes_8 by exact G. cbn [bind].
  unfold sizeof_uint64. pose proof (length_advance range 8) as La.
  destruct (TypeId.of_code _) as [[| | |]|]; try discriminate.
  - pose proof (IntegerType_deserialize_answers
                  (advance range 8)) as D.
    destruct (IntegerType_deserialize _) as [[x r]| | |]; cbn [bind];
      congruence.
  - pose proof (FloatType_deserialize_answers
                  (advance range 8)) as D.
    destruct (FloatType_deserialize _) as [[x r]| | |]; cbn [bind];
      congruence.
  - pose proof (StringType_deserialize_answers
                  (advance range 8)) as D.
    destruct (StringType_deserialize _) as [[x r]| | |]; cbn [bind];
      congruence.
  - pose proof (VectorType_deserialize_with_answers_16
                  (Any_deserialize_fuel fuel) fuel
                  (advance range 8)) as D.
    destruct (VectorType_deserialize_with _ _ _) as [[x r]| | |]; cbn [bind];
      try discriminate.
    intros _. apply D; [|lia|reflexivity]. intros r Hr.
    unfold consumes. rewrite (IH r) by lia. apply Any_deserialize_consumes.
Qed.

Lemma VectorType_deserialize_with_depth (fuel : nat) (range : Range) :
  (length range < 16 * fuel + 8)%nat ->
  VectorType_deserialize_with (Any_deserialize_fuel fuel) fuel range
  = VectorType_deserialize range.
Proof.
  intros Hf.
  destruct (Nat.le_gt_cases fuel (enough_fuel range)) as [Hle|Hgt].
  - symmetry. unfold VectorType_deserialize.
    apply VectorType_deserialize_with_mono;
      [apply Any_deserialize_fuel_refines_total | exact Hle |].
    apply VectorType_deserialize_with_answers_16; [|exact Hf].
    intros r Hr. unfold consumes.
    rewrite (Any_deserialize_fuel_depth fuel r) by lia.
    apply Any_deserialize_consumes.
  - apply VectorType_deserialize_with_enough. unfold enough_fuel in Hgt. lia.
Qed.

(** C9. On every range the decoders of Any, of Vector and of the
    container end, and they end in one of two ways: a value is returned
    and the cursor has moved forward, by at least 16 bytes for a tagged
    value and 8 for a vector or a scalar, or an exception leaves the
    call. The recursion runs with a depth of one level for every 16
    bytes of the range ([fuel] counts the nested calls), whatever counts
    and nesting the bytes declare, and no decoder reads past the end. *)
Theorem C9_decode_terminates (range : Range) (fuel : nat)
    (Hfuel : (length range < 16 * fuel)%nat) :
  (Any_deserialize_fuel fuel range = Any_deserialize range
   /\ returns_or_throws 16 range (Any_deserialize range))
  /\ (VectorType_deserialize_with (Any_deserialize_fuel fuel) fuel range
      = VectorType_deserialize range
      /\ returns_or_throws 8 range (VectorType_deserialize range))
  /\ ((exists l, Serializator_deserialize range = Ok l)
      \/ (exists e, Serializator_deserialize range = Throw e))
  /\ returns_or_throws 8 range (IntegerType_deserialize range)
  /\ returns_or_throws 8 range (FloatType_deserialize range)
  /\ returns_or_throws 8 range (StringType_deserialize range).
Proof.
  split; [split; [apply Any_deserialize_fuel_depth, Hfuel|]|].
  { destruct (Any_deserialize_consumes range) as [Hne Hlen].
    pose proof (Any_deserialize_defined range) as D.
    unfold returns_or_throws.
    destruct (Any_deserialize range) as [[v rest]|e|u|];
      [left; eauto | right; eauto | destruct (D u eq_refl) | congruence]. }
  split; [split; [apply VectorType_deserialize_with_depth; lia|]|].
  { destruct (VectorType_deserialize_answers range) as [Hne Hlen].
    pose proof (fun u => VectorType_deserialize_with_defined Any_deserialize
                  (enough_fuel range) range u
                  Any_deserialize_defined) as D.
    fold (VectorType_deserialize range) in D. unfold returns_or_throws.
    destruct (VectorType_deserialize range) as [[v rest]|e|u|];
      [left; eauto | right; eauto | destruct (D u eq_refl) | congruence]. }
  split.
  { pose proof (Serializator_deserialize_answers range) as Hne.
    pose proof (Serializator_deserialize_defined range) as D.
    destruct (Serializator_deserialize range) as [l|e|u|];
      [left; eauto | right; eauto | destruct (D u eq_refl) | congruence]. }
  split; [|split]; unfold returns_or_throws.
  - pose proof (IntegerType_deserialize_answers range) as Hne.
    pose proof (IntegerType_deserialize_defined range) as D.
    destruct (IntegerType_deserialize range) as [[v rest]|e|u|] eqn:E;
      [left | right; eauto | destruct (D u eq_refl) | congruence].
    exists v, rest. split; [reflexivity|].
    apply IntegerType_deserialize_Ok in E. destruct E as (L & _ & ->).
    rewrite length_advance. lia.
  - pose proof (FloatType_deserialize_answers range) as Hne.
    pose proof (FloatType_deserialize_defined range) as D.
    destruct (FloatType_deserialize range) as [[v rest]|e|u|] eqn:E;
      [left | right; eauto | destruct (D u eq_refl) | congruence].
    exists v, rest. split; [reflexivity|].
    apply FloatType_deserialize_Ok in E. destruct E as (L & _ & ->).
    rewrite length_advance. lia.
  - pose proof (StringType_deserialize_answers range) as Hne.
    pose proof (StringType_deserialize_defined range) as D.
    destruct (StringType_deserialize range) as [[v rest]|e|u|] eqn:E;
      [left | right; eauto | destruct (D u eq_refl) | congruence].
    exists v, rest. split; [reflexivity|].
    apply StringType_deserialize_Ok in E. destruct E as (L & _ & _ & ->).
    rewrite !length_advance. lia.
Qed.

(** A range of 25 bytes, decoded with two levels of calls. *)
Lemma C9_decode_terminates_witness :
  (length sample_truncated < 16 * 2)%nat
  /\ Any_deserialize_fuel 2 sample_truncated
     = Any_deserialize sample_truncated
  /\ returns_or_throws 16 sample_truncated (Any_deserialize sample_truncated)
  /\ ((exists l, Serializator_deserialize sample_truncated = Ok l)
      \/ (exists e, Serializator_deserialize sample_truncated = Throw e)).
Proof.
  assert (H : (length sample_truncated < 16 * 2)%nat) by (vm_compute; lia).
  pose proof (C9_decode_terminates sample_truncated 2 H)
    as ((A & B) & _ & C & _).
  repeat split; assumption.
Defined.

Lemma C10_trailing_bytes_ignored_witness :
  Serializator_deserialize sample_buffer
  = Ok [Any_Integer (mkIntegerType 5); Any_String (mkStringType [Byte.x78])]
  /\ Serializator_deserialize (sample_buffer ++ [Byte.xff; Byte.xff])
     = Ok [Any_Integer (mkIntegerType 5);
           Any_String (mkStringType [Byte.x78])].
Proof.
  assert (H : Serializator_deserialize sample_buffer
              = Ok [Any_Integer (mkIntegerType 5);
                    Any_String (mkStringType [Byte.x78])])
    by (vm_compute; reflexivity).
  split; [exact H|].
  exact (C10_trailing_bytes_ignored sample_buffer [Byte.xff; Byte.xff] _ H).
Defined.

(** * Further properties of the code *)

(** ** The codec on arbitrary bytes *)

Lemma fromLittleEndian_loop_data (n : nat) :
  forall (i : nat) (data data' : list byte) (res : Z),
    (forall j : nat, (i <= j < i + n)%nat ->
       nth j data Byte.x00 = nth j data' Byte.x00) ->
    fromLittleEndian_loop n i data res = fromLittleEndian_loop n i data' res.
Proof.
  induction n as [|n IH]; intros i data data' res H; simpl; [reflexivity|].
  rewrite (H i) by lia. apply IH. intros j Hj. apply H. lia.
Qed.

Lemma fromLittleEndian_firstn (data : list byte) :
  fromLittleEndian (firstn 8 data) = fromLittleEndian data.
Proof.
  unfold fromLittleEndian. apply fromLittleEndian_loop_data.
  intros j Hj. unfold sizeof_uint64 in Hj.
  destruct (Nat.lt_ge_cases j (length data)) as [L|L].
  - rewrite <- (firstn_skipn 8 data) at 2.
    rewrite app_nth1; [reflexivity|]. rewrite length_firstn. lia.
  - rewrite !nth_overflow; [reflexivity | lia |].
    rewrite length_firstn. lia.
Qed.

(** X1. On any 8 bytes, [fromLittleEndian] gives a 64-bit value and
    [toLittleEndian] of that value gives the 8 bytes back; bytes after
    the eighth are not looked at. With C6 the two functions are inverse
    bijections between 8-byte sequences and 64-bit values. *)
Theorem X1_decode_then_encode (data extra : list byte)
    (H : length data = 8%nat) :
  in_range (fromLittleEndian data)
  /\ toLittleEndian (fromLittleEndian data) = data
  /\ fromLittleEndian (data ++ extra) = fromLittleEndian data.
Proof.
  split; [apply fromLittleEndian_range, H|].
  split; [apply toLittleEndian_fromLittleEndian, H|].
  rewrite <- (fromLittleEndian_firstn (data ++ extra)).
  rewrite firstn_app_within by lia.
  rewrite <- H, firstn_all. reflexivity.
Qed.

Lemma X1_decode_then_encode_witness :
  length [Byte.xde; Byte.xad; Byte.xbe; Byte.xef;
          Byte.x00; Byte.x01; Byte.x02; Byte.xff] = 8%nat
  /\ toLittleEndian
       (fromLittleEndian [Byte.xde; Byte.xad; Byte.xbe; Byte.xef;
                          Byte.x00; Byte.x01; Byte.x02; Byte.xff])
     = [Byte.xde; Byte.xad; Byte.xbe; Byte.xef;
        Byte.x00; Byte.x01; Byte.x02; Byte.xff].
Proof.
  split; [reflexivity|].
  apply (X1_decode_then_encode
           [Byte.xde; Byte.xad; Byte.xbe; Byte.xef;
            Byte.x00; Byte.x01; Byte.x02; Byte.xff] [Byte.x07] eq_refl).
Defined.

Lemma toLittleEndian_wrap64 (v : Z) :
  toLittleEndian (wrap64 v) = toLittleEndian v.
Proof.
  unfold toLittleEndian, wrap64, modulus.
  rewrite !toLittleEndian_loop_le_split.
  symmetry. apply (le_split_mod v sizeof_uint64).
Qed.

Lemma toLittleEndian_eq_iff (v w : Z) :
  toLittleEndian v = toLittleEndian w <-> wrap64 v = wrap64 w.
Proof.
  split; intros H.
  - assert (E : forall z, fromLittleEndian (toLittleEndian z) = wrap64 z).
    { intros z. rewrite <- toLittleEndian_wrap64.
      apply fromLittleEndian_toLittleEndian.
      apply Z.mod_pos_bound. reflexivity. }
    rewrite <- (E v), <- (E w), H. reflexivity.
  - rewrite <- (toLittleEndian_wrap64 v), <- (toLittleEndian_wrap64 w), H.
    reflexivity.
Qed.

(** ** Scalars: encode then decode, decode then encode *)

(** X2. An [IntegerType] holding a 64-bit value, serialized into an empty
    buffer and followed by any bytes, deserializes to the same value and
    leaves exactly the bytes that followed. *)
Theorem X2_integer_round_trip (n : Z) (rest : list byte) (H : in_range n) :
  exists bytes,
    IntegerType_serialize (mkIntegerType n) [] = Ok bytes
    /\ length bytes = 8%nat
    /\ IntegerType_deserialize (bytes ++ rest) = Ok (mkIntegerType n, rest).
Proof.
  exists (toLittleEndian n). rewrite IntegerType_serialize_eq.
  cbn [int_value_ app]. rewrite wrap64_small by exact H.
  split; [reflexivity|]. split; [apply length_toLittleEndian|].
  apply (IntegerType_deserialize_wire n rest H).
Qed.

Lemma X2_integer_round_trip_witness :
  in_range 18446744073709551615
  /\ exists bytes,
       IntegerType_serialize (mkIntegerType 18446744073709551615) []
       = Ok bytes
       /\ length bytes = 8%nat
       /\ IntegerType_deserialize (bytes ++ [Byte.x2a])
          = Ok (mkIntegerType 18446744073709551615, [Byte.x2a]).
Proof.
  assert (H : in_range 18446744073709551615)
    by (unfold in_range, modulus; lia).
  split; [exact H|].
  exact (X2_integer_round_trip 18446744073709551615 [Byte.x2a] H).
Defined.

Lemma split_8 (range : Range) :
  (8 <= length range)%nat -> range = firstn 8 range ++ advance range 8.
Proof. intros _. symmetry. apply firstn_skipn. Qed.

(** X3. On every range [IntegerType::deserialize] and
    [FloatType::deserialize] either find fewer than 8 bytes and throw the
    truncation error, or succeed: then they have consumed exactly the
    first 8 bytes, the value is a 64-bit one, and serializing it gives
    those 8 bytes again. They never read past the end. *)
Theorem X3_fixed_width_decoders (range : Range) :
  ((length range < 8)%nat
   /\ IntegerType_deserialize range = Throw TruncatedInput
   /\ FloatType_deserialize range = Throw TruncatedInput)
  \/ (exists (bytes rest : list byte) (n : Z),
        range = bytes ++ rest /\ length bytes = 8%nat /\ in_range n
        /\ IntegerType_deserialize range = Ok (mkIntegerType n, rest)
        /\ IntegerType_serialize (mkIntegerType n) [] = Ok bytes
        /\ FloatType_deserialize range = Ok (mkFloatType (mkDouble n), rest)
        /\ FloatType_serialize (mkFloatType (mkDouble n)) [] = Ok bytes).
Proof.
  destruct (Nat.lt_ge_cases (length range) 8) as [L|L].
  - left. split; [exact L|].
    unfold IntegerType_deserialize, FloatType_deserialize.
    change sizeof_double with sizeof_uint64. unfold sizeof_uint64.
    rewrite (proj2 (lt_sizeof_true range) L). split; reflexivity.
  - right. exists (firstn 8 range), (advance range 8),
      (fromLittleEndian (firstn 8 range)).
    pose proof (length_firstn_8 range L) as L8.
    pose proof (fromLittleEndian_range _ L8) as R.
    split; [apply split_8, L|]. split; [exact L8|]. split; [exact R|].
    unfold IntegerType_deserialize, FloatType_deserialize.
    change sizeof_double with sizeof_uint64. unfold sizeof_uint64.
    rewrite (proj2 (lt_sizeof_false range) L), read_bytes_8 by exact L.
    cbn [bind]. rewrite IntegerType_serialize_eq, FloatType_serialize_eq.
    unfold bits_of_double, double_of_bits.
    cbn [int_value_ float_value_ bit_pattern app].
    rewrite wrap64_small by exact R.
    rewrite toLittleEndian_fromLittleEndian by exact L8.
    repeat split; reflexivity.
Qed.

(** X4. A [StringType] of fewer than [2^63] bytes, serialized into an
    empty buffer and followed by any bytes, deserializes to the same
    string and leaves exactly the bytes that followed; the encoding is 8
    bytes longer than the string. *)
Theorem X4_string_round_trip (chars rest : list byte)
    (H : Z.of_nat (length chars) < 2 ^ 63) :
  exists bytes,
    StringType_serialize (mkStringType chars) [] = Ok bytes
    /\ length bytes = (8 + length chars)%nat
    /\ StringType_deserialize (bytes ++ rest) = Ok (mkStringType chars, rest).
Proof.
  exists (toLittleEndian (Z.of_nat (length chars)) ++ chars).
  rewrite StringType_serialize_eq. cbn [string_value_ app].
  rewrite wrap64_small by (unfold in_range, modulus; lia).
  split; [reflexivity|].
  split; [rewrite length_app, length_toLittleEndian; reflexivity|].
  rewrite <- app_assoc.
  apply (StringType_deserialize_wire chars rest H).
Qed.

Lemma X4_string_round_trip_witness :
  Z.of_nat (length [Byte.x68; Byte.x69]) < 2 ^ 63
  /\ exists bytes,
       StringType_serialize (mkStringType [Byte.x68; Byte.x69]) [] = Ok bytes
       /\ length bytes = (8 + length [Byte.x68; Byte.x69])%nat
       /\ StringType_deserialize (bytes ++ [Byte.x00])
          = Ok (mkStringType [Byte.x68; Byte.x69], [Byte.x00]).
Proof.
  assert (H : Z.of_nat (length [Byte.x68; Byte.x69]) < 2 ^ 63)
    by (simpl; lia).
  split; [exact H|].
  exact (X4_string_round_trip [Byte.x68; Byte.x69] [Byte.x00] H).
Defined.

(** X5. [StringType::deserialize] has exactly three outcomes on a range
    whose first 8 bytes declare the length [size] with [remaining] bytes
    after them. It succeeds exactly when [size <= remaining] and
    [size < 2^63]; then it has consumed the length field and [size]
    bytes, and serializing the string gives the consumed bytes again. It
    throws the truncation error exactly when fewer than 8 bytes are
    there or [remaining < size < 2^63]. For [2^63 <= size] the signed
    guard lets the length through and the decoder ends with the
    [std::length_error] of [assign]. It never reads past the end. *)
Theorem X5_string_decoder_outcomes (range : Range) :
  ((length range < 8)%nat
   /\ StringType_deserialize range = Throw TruncatedInput)
  \/ ((8 <= length range)%nat
      /\ Z.of_nat (length range) - 8 < fromLittleEndian (firstn 8 range) < 2 ^ 63
      /\ StringType_deserialize range = Throw TruncatedInput)
  \/ ((8 <= length range)%nat
      /\ 2 ^ 63 <= fromLittleEndian (firstn 8 range)
      /\ StringType_deserialize range = Throw LengthError)
  \/ (exists (chars rest : list byte),
        Z.of_nat (length chars) = fromLittleEndian (firstn 8 range)
        /\ fromLittleEndian (firstn 8 range) < 2 ^ 63
        /\ range = firstn 8 range ++ chars ++ rest
        /\ StringType_deserialize range = Ok (mkStringType chars, rest)
        /\ StringType_serialize (mkStringType chars) []
           = Ok (firstn 8 range ++ chars)).
Proof.
  destruct (StringType_deserialize_cases range) as (C1 & C2 & C3 & C4).
  cbv zeta in *.
  destruct (Nat.lt_ge_cases (length range) 8) as [L|L]; [left; auto|].
  right.
  pose proof (fromLittleEndian_range _ (length_firstn_8 range L)) as R.
  set (size := fromLittleEndian (firstn 8 range)) in *.
  destruct (Z.lt_ge_cases size (2 ^ 63)) as [S|S];
    [|right; left; split; [exact L|]; split; [exact S|];
      apply C3; assumption].
  destruct (Z.le_gt_cases size (Z.of_nat (length range) - 8)) as [B|B];
    [|left; split; [exact L|]; split; [lia|]; apply C2; [exact L | lia]].
  right. right.
  exists (firstn (Z.to_nat size) (advance range 8)),
    (advance range (8 + Z.to_nat size)).
  unfold in_range in R.
  assert (Hlen : length (firstn (Z.to_nat size) (advance range 8))
                 = Z.to_nat size)
    by (rewrite length_firstn, length_advance; lia).
  split; [rewrite Hlen; lia|]. split; [exact S|].
  split.
  - rewrite (split_8 range L) at 1. f_equal.
    unfold advance. rewrite (Nat.add_comm 8), <- skipn_skipn.
    symmetry. apply firstn_skipn.
  - split; [apply C4; assumption|].
    rewrite StringType_serialize_eq. cbn [string_value_ app].
    rewrite Hlen, Z2Nat.id by lia.
    rewrite wrap64_small by exact R. unfold size.
    rewrite toLittleEndian_fromLittleEndian
      by (apply length_firstn_8, L).
    reflexivity.
Qed.

(** ** What a successful decode says about the bytes *)

Lemma deserialize_loop_sound g :
  (forall range a rest,
     g range = Ok (a, rest) ->
     range = Wire.Value a ++ rest /\ encodable a = true) ->
  forall (fuel : nat) (i size : Z) (range : Range) (acc es : list Any) rest,
    deserialize_loop g fuel i size range acc = Ok (es, rest) ->
    0 <= i <= size -> size < modulus ->
    exists new,
      es = acc ++ new /\ range = Wire.Values new ++ rest
      /\ forallb encodable new = true
      /\ i + Z.of_nat (length new) = size.
Proof.
  intros Hg. induction fuel as [|fuel IH];
    intros i size range acc es rest; rewrite deserialize_loop_eq;
    destruct (i <? size) eqn:C; try discriminate; intros H Hi Hm;
    try (apply Z.ltb_ge in C; inversion H; subst; exists [];
         rewrite app_nil_r; repeat split; simpl; lia).
  apply Z.ltb_lt in C.
  apply bind_Ok in H. destruct H as ([any r1] & E & H).
  apply Hg in E. destruct E as [-> Ea].
  rewrite wrap64_small in H by (unfold in_range; lia).
  apply IH in H; [|lia|lia]. destruct H as (new & -> & -> & En & Hn).
  exists (any :: new). rewrite <- app_assoc. cbn [app length forallb].
  unfold Wire.Values. cbn [flat_map]. rewrite <- app_assoc, Ea, En.
  repeat split. lia.
Qed.

Lemma VectorType_deserialize_with_sound g (fuel : nat) (range : Range)
    v rest :
  (forall range a rest,
     g range = Ok (a, rest) ->
     range = Wire.Value a ++ rest /\ encodable a = true) ->
  VectorType_deserialize_with g fuel range = Ok (v, rest) ->
  (8 <= length range)%nat
  /\ Z.of_nat (length (getElements v)) = fromLittleEndian (firstn 8 range)
  /\ range = firstn 8 range ++ Wire.Values (getElements v) ++ rest
  /\ forallb encodable (getElements v) = true.
Proof.
  intros Hg. unfold VectorType_deserialize_with.
  destruct (lt_sizeof _ _) eqn:G; [discriminate|].
  apply lt_sizeof_false in G. rewrite read_bytes_8 by exact G. cbn [bind].
  pose proof (fromLittleEndian_range _ (length_firstn_8 range G)) as R.
  unfold in_range in R.
  intros H. apply bind_Ok in H. destruct H as ([es r] & E & H).
  inversion H; subst.
  apply (deserialize_loop_sound g Hg) in E; [|lia|lia].
  destruct E as (new & -> & E & En & Hn). cbn [app getElements].
  split; [exact G|]. split; [lia|]. split; [|exact En].
  rewrite <- E. apply split_8, G.
Qed.

Lemma Any_deserialize_fuel_sound (fuel : nat) :
  forall (range : Range) a rest,
    Any_deserialize_fuel fuel range = Ok (a, rest) ->
    range = Wire.Value a ++ rest /\ encodable a = true.
Proof.
  induction fuel as [|fuel IH]; intros range a rest; [discriminate|].
  rewrite Any_deserialize_fuel_S.
  destruct (lt_sizeof _ _) eqn:G; [discriminate|].
  apply lt_sizeof_false in G. rewrite read_bytes_8 by exact G. cbn [bind].
  pose proof (length_firstn_8 range G) as L8.
  pose proof (toLittleEndian_fromLittleEndian _ L8) as T.
  unfold TypeId.of_code, sizeof_uint64.
  destruct (_ =? 0) eqn:C0;
    [|destruct (_ =? 1) eqn:C1;
      [|destruct (_ =? 2) eqn:C2;
        [|destruct (_ =? 3) eqn:C3; [|discriminate]]]];
    intros H; apply bind_Ok in H; destruct H as ([x r] & E & H);
    inversion H; subst; cbn [Wire.Value getPayloadTypeId TypeId.code];
    unfold Wire.u64.
  - apply Z.eqb_eq in C0. rewrite <- C0, T.
    apply IntegerType_deserialize_Ok in E. destruct E as (L & -> & ->).
    pose proof L as L'. rewrite length_advance in L'.
    pose proof (length_firstn_8 (advance range 8) L) as L8'.
    cbn [int_value_ encodable].
    rewrite toLittleEndian_fromLittleEndian by exact L8'.
    rewrite <- !app_assoc.
    rewrite <- (split_8 (advance range 8)) by exact L.
    split; [apply split_8, G|].
    apply in_rangeb_true, fromLittleEndian_range, L8'.
  - apply Z.eqb_eq in C1. rewrite <- C1, T.
    apply FloatType_deserialize_Ok in E. destruct E as (L & -> & ->).
    pose proof L as L'. rewrite length_advance in L'.
    pose proof (length_firstn_8 (advance range 8) L) as L8'.
    cbn [float_value_ bit_pattern double_of_bits encodable].
    rewrite toLittleEndian_fromLittleEndian by exact L8'.
    rewrite <- !app_assoc.
    rewrite <- (split_8 (advance range 8)) by exact L.
    split; [apply split_8, G|].
    apply in_rangeb_true, fromLittleEndian_range, L8'.
  - apply Z.eqb_eq in C2. rewrite <- C2, T.
    pose proof (StringType_deserialize_Ok_size _ _ _ E) as Hmax.
    apply StringType_deserialize_Ok in E. cbv zeta in E.
    destruct E as (L & B & -> & ->).
    pose proof L as L'. rewrite length_advance in L', B.
    pose proof (length_firstn_8 (advance range 8) L) as L8'.
    pose proof (fromLittleEndian_range _ L8') as R. unfold in_range in R.
    cbn [string_value_ encodable].
    rewrite length_firstn, !length_advance.
    rewrite Nat.min_l by lia. rewrite Z2Nat.id by lia.
    rewrite toLittleEndian_fromLittleEndian by exact L8'.
    rewrite <- !app_assoc.
    unfold advance in *. rewrite !firstn_skipn.
    split; [reflexivity|]. apply Z.ltb_lt. lia.
  - apply Z.eqb_eq in C3. rewrite <- C3, T.
    apply (VectorType_deserialize_with_sound _ _ _ _ _ IH) in E.
    destruct E as (L & Hn & E & En). destruct x as [es].
    cbn [getElements] in *. cbn [encodable].
    rewrite Hn.
    rewrite toLittleEndian_fromLittleEndian by (apply length_firstn_8, L).
    fold (Wire.Values es). rewrite <- !app_assoc, <- E.
    split; [apply split_8, G|].
    rewrite En, andb_true_r. apply Z.ltb_lt.
    pose proof (fromLittleEndian_range _ (length_firstn_8 _ L)) as R.
    unfold in_range in R. lia.
Qed.

Lemma Any_deserialize_sound (range : Range) a rest :
  Any_deserialize range = Ok (a, rest) ->
  range = Wire.Value a ++ rest /\ encodable a = true.
Proof. apply Any_deserialize_fuel_sound. Qed.

Lemma deserialize_elements_sound (i size : Z) (range : Range)
    (acc es : list Any) rest :
  deserialize_elements i size range acc = Ok (es, rest) ->
  0 <= i <= size -> size < modulus ->
  exists new,
    es = acc ++ new /\ range = Wire.Values new ++ rest
    /\ forallb encodable new = true
    /\ i + Z.of_nat (length new) = size.
Proof.
  apply deserialize_loop_sound. intros r a r'. apply Any_deserialize_sound.
Qed.

Lemma StringType_deserialize_wire_full (chars rest : list byte) :
  Z.of_nat (length chars) < 2 ^ 63 ->
  StringType_deserialize (Wire.u64 (Z.of_nat (length chars)) ++ chars ++ rest)
  = Ok (mkStringType chars, rest).
Proof. apply StringType_deserialize_wire. Qed.

Lemma encodable_Vector (elements_ : list Any) :
  encodable (Any_Vector (mkVectorType elements_))
  = (Z.of_nat (length elements_) <? modulus) && forallb encodable elements_.
Proof. reflexivity. Qed.

(** Every value that the decoder can return decodes from its bytes. *)
Lemma Any_deserialize_wire_full (a : Any) :
  encodable a = true ->
  forall rest, Any_deserialize (Wire.Value a ++ rest) = Ok (a, rest).
Proof.
  induction a as [[n]|[[bits]]|[chars]|elements_ IH] using Any_nested_ind;
    intros R rest; rewrite Any_deserialize_eq;
    cbn [Wire.Value getPayloadTypeId int_value_ float_value_ bit_pattern
         string_value_];
    rewrite <- app_assoc, guard_u64, read_u64; cbn [bind];
    rewrite fromLittleEndian_u64 by apply in_range_code;
    rewrite of_code_code, advance_u64.
  - cbn [encodable int_value_] in R. apply in_rangeb_true in R.
    rewrite IntegerType_deserialize_wire by exact R. reflexivity.
  - cbn [encodable float_value_ bit_pattern] in R.
    apply in_rangeb_true in R.
    rewrite FloatType_deserialize_wire by exact R. reflexivity.
  - cbn [encodable string_value_] in R. apply Z.ltb_lt in R.
    rewrite <- app_assoc.
    rewrite StringType_deserialize_wire_full by exact R. reflexivity.
  - rewrite encodable_Vector in R.
    apply andb_true_iff in R. destruct R as [Rn Rall].
    apply Z.ltb_lt in Rn. rewrite forallb_forall in Rall.
    rewrite VectorType_deserialize_eq.
    rewrite <- app_assoc, guard_u64, read_u64. cbn [bind].
    rewrite fromLittleEndian_u64 by (unfold in_range; lia).
    rewrite advance_u64.
    fold (Wire.Values elements_).
    rewrite (deserialize_elements_wire elements_); try lia.
    + reflexivity.
    + rewrite Forall_forall in *. intros a Hin. apply IH; auto.
Qed.

Lemma length_Value_ge (a : Any) : (16 <= length (Wire.Value a))%nat.
Proof.
  destruct a as [v|v|v|[es]]; cbn [Wire.Value];
    rewrite !length_app, !length_u64; lia.
Qed.

Lemma firstn_u64 (z : Z) (rest : list byte) :
  firstn 8 (Wire.u64 z ++ rest) = Wire.u64 z.
Proof.
  rewrite firstn_app_within by (rewrite length_u64; lia).
  rewrite <- (length_u64 z). apply firstn_all.
Qed.

(** ** A decoded value and its tag (X6) *)

(** X6. When [Any::deserialize] succeeds, the discriminant it read is
    the code of [getPayloadTypeId] of the value it returns, and
    [getValue<T>] of that value succeeds for exactly the type [T] of
    that code and throws for the three others. *)
Theorem X6_decoded_variant (range : Range) (a : Any) (rest : Range)
    (H : Any_deserialize range = Ok (a, rest)) :
  fromLittleEndian (firstn 8 range) = TypeId.code (getPayloadTypeId a)
  /\ (getValue_IntegerType a <> None
      <-> fromLittleEndian (firstn 8 range) = 0)
  /\ (getValue_FloatType a <> None
      <-> fromLittleEndian (firstn 8 range) = 1)
  /\ (getValue_StringType a <> None
      <-> fromLittleEndian (firstn 8 range) = 2)
  /\ (getValue_VectorType a <> None
      <-> fromLittleEndian (firstn 8 range) = 3).
Proof.
  apply Any_deserialize_sound in H. destruct H as [-> _].
  assert (E : fromLittleEndian (firstn 8 (Wire.Value a ++ rest))
              = TypeId.code (getPayloadTypeId a)).
  { destruct a as [v|v|v|[es]]; cbn [Wire.Value];
      rewrite <- app_assoc, firstn_u64;
      apply fromLittleEndian_u64, in_range_code. }
  rewrite E. split; [reflexivity|].
  destruct a as [v|v|v|v]; cbn; repeat split; intros; congruence.
Qed.

Lemma X6_decoded_variant_witness :
  Any_deserialize (toLittleEndian 2 ++ toLittleEndian 1 ++ [Byte.x61])
  = Ok (Any_String (mkStringType [Byte.x61]), [])
  /\ getValue_StringType (Any_String (mkStringType [Byte.x61])) <> None
  /\ ~ getValue_IntegerType (Any_String (mkStringType [Byte.x61])) <> None.
Proof.
  assert (H : Any_deserialize
                (toLittleEndian 2 ++ toLittleEndian 1 ++ [Byte.x61])
              = Ok (Any_String (mkStringType [Byte.x61]), []))
    by (vm_compute; reflexivity).
  destruct (X6_decoded_variant _ _ _ H) as (E & HI & _ & HS & _).
  split; [exact H|]. split.
  - apply HS. rewrite E. reflexivity.
  - intros N. apply HI in N. rewrite E in N. discriminate N.
Defined.

(** ** The consumed bytes and the decoded value determine each other *)

Lemma Serializator_deserialize_sound (buffer : Buffer) (l : list Any) :
  Serializator_deserialize buffer = Ok l ->
  (8 <= length buffer)%nat
  /\ Z.of_nat (length l) = fromLittleEndian (firstn 8 buffer)
  /\ forallb encodable l = true
  /\ exists extra, buffer = Wire.Container l ++ extra.
Proof.
  rewrite Serializator_deserialize_eq.
  destruct (lt_sizeof _ _) eqn:G; [discriminate|].
  apply lt_sizeof_false in G. rewrite read_bytes_8 by exact G. cbn [bind].
  pose proof (length_firstn_8 buffer G) as L8.
  pose proof (fromLittleEndian_range _ L8) as R. unfold in_range in R.
  intros H. apply bind_Ok in H. destruct H as ([es r] & E & H).
  inversion H; subst.
  apply deserialize_elements_sound in E; [|lia|lia].
  destruct E as (new & -> & E & En & Hn). cbn [app].
  split; [exact G|]. split; [lia|]. split; [exact En|].
  exists r. unfold Wire.Container, Wire.u64.
  replace (Z.of_nat (length new)) with (fromLittleEndian (firstn 8 buffer))
    by lia.
  rewrite toLittleEndian_fromLittleEndian by exact L8.
  rewrite <- app_assoc. unfold sizeof_uint64 in E. rewrite <- E.
  apply split_8, G.
Qed.

Lemma Serializator_deserialize_wire_full (l : list Any) (extra : list byte) :
  Z.of_nat (length l) < modulus -> forallb encodable l = true ->
  Serializator_deserialize (Wire.Container l ++ extra) = Ok l.
Proof.
  intros Rn Rall. rewrite forallb_forall in Rall.
  rewrite Serializator_deserialize_eq. unfold Wire.Container.
  rewrite <- app_assoc, guard_u64, read_u64. cbn [bind].
  rewrite fromLittleEndian_u64 by (unfold in_range; lia).
  rewrite advance_u64.
  rewrite (deserialize_elements_wire l); try lia.
  - reflexivity.
  - rewrite Forall_forall. intros a Hin.
    apply Any_deserialize_wire_full; auto.
Qed.

(** X7. The bytes that [Any::deserialize] consumes are determined by the
    value it returns: two ranges that decode to the same value begin
    with the same bytes, and what is left of each is what follows those
    bytes. No value has two encodings that the decoder accepts. *)
Theorem X7_one_encoding_per_value (r1 r2 : Range) (a : Any)
    (rest1 rest2 : Range)
    (H1 : Any_deserialize r1 = Ok (a, rest1))
    (H2 : Any_deserialize r2 = Ok (a, rest2)) :
  exists consumed, r1 = consumed ++ rest1 /\ r2 = consumed ++ rest2.
Proof.
  apply Any_deserialize_sound in H1, H2.
  destruct H1 as [-> _], H2 as [-> _].
  exists (Wire.Value a). split; reflexivity.
Qed.

Lemma X7_one_encoding_per_value_witness :
  Any_deserialize (toLittleEndian 0 ++ toLittleEndian 7 ++ [Byte.x01])
  = Ok (Any_Integer (mkIntegerType 7), [Byte.x01])
  /\ Any_deserialize
       (toLittleEndian 0 ++ toLittleEndian 7 ++ [Byte.x02; Byte.x03])
     = Ok (Any_Integer (mkIntegerType 7), [Byte.x02; Byte.x03])
  /\ exists consumed,
       toLittleEndian 0 ++ toLittleEndian 7 ++ [Byte.x01]
       = consumed ++ [Byte.x01]
       /\ toLittleEndian 0 ++ toLittleEndian 7 ++ [Byte.x02; Byte.x03]
          = consumed ++ [Byte.x02; Byte.x03].
Proof.
  assert (H1 : Any_deserialize
                 (toLittleEndian 0 ++ toLittleEndian 7 ++ [Byte.x01])
               = Ok (Any_Integer (mkIntegerType 7), [Byte.x01]))
    by (vm_compute; reflexivity).
  assert (H2 : Any_deserialize
                 (toLittleEndian 0 ++ toLittleEndian 7
                  ++ [Byte.x02; Byte.x03])
               = Ok (Any_Integer (mkIntegerType 7), [Byte.x02; Byte.x03]))
    by (vm_compute; reflexivity).
  split; [exact H1|]. split; [exact H2|].
  exact (X7_one_encoding_per_value _ _ _ _ _ H1 H2).
Defined.

(** X8. What [Any::deserialize] returns depends on the bytes it consumes
    and on nothing after them: a successful decode splits the range into
    at least 16 consumed bytes and the range it returns, and the consumed
    bytes followed by any other bytes decode to the same value, leaving
    those other bytes. *)
Theorem X8_decode_depends_on_consumed_bytes (range : Range) (a : Any)
    (rest : Range) (H : Any_deserialize range = Ok (a, rest)) :
  exists consumed,
    range = consumed ++ rest
    /\ (16 <= length consumed)%nat
    /\ forall rest', Any_deserialize (consumed ++ rest') = Ok (a, rest').
Proof.
  apply Any_deserialize_sound in H. destruct H as [-> E].
  exists (Wire.Value a). split; [reflexivity|].
  split; [apply length_Value_ge|].
  intros rest'. apply Any_deserialize_wire_full. exact E.
Qed.

Lemma X8_decode_depends_on_consumed_bytes_witness :
  Any_deserialize (toLittleEndian 0 ++ toLittleEndian 7 ++ [Byte.x01])
  = Ok (Any_Integer (mkIntegerType 7), [Byte.x01])
  /\ exists consumed,
       toLittleEndian 0 ++ toLittleEndian 7 ++ [Byte.x01]
       = consumed ++ [Byte.x01]
       /\ (16 <= length consumed)%nat
       /\ forall rest',
            Any_deserialize (consumed ++ rest')
            = Ok (Any_Integer (mkIntegerType 7), rest').
Proof.
  assert (H : Any_deserialize
                (toLittleEndian 0 ++ toLittleEndian 7 ++ [Byte.x01])
              = Ok (Any_Integer (mkIntegerType 7), [Byte.x01]))
    by (vm_compute; reflexivity).
  split; [exact H|].
  exact (X8_decode_depends_on_consumed_bytes _ _ _ H).
Defined.

(** X9. Two buffers on which [Serializator::deserialize] returns the same
    list begin with the same bytes, and those bytes alone decode to that
    list: whatever differs between the buffers comes after the last
    value and is ignored. *)
Theorem X9_container_common_prefix (b1 b2 : Buffer) (l : list Any)
    (H1 : Serializator_deserialize b1 = Ok l)
    (H2 : Serializator_deserialize b2 = Ok l) :
  exists prefix extra1 extra2,
    b1 = prefix ++ extra1 /\ b2 = prefix ++ extra2
    /\ Serializator_deserialize prefix = Ok l.
Proof.
  apply Serializator_deserialize_sound in H1, H2.
  destruct H1 as (_ & Hn & En & e1 & ->), H2 as (_ & _ & _ & e2 & ->).
  exists (Wire.Container l), e1, e2.
  split; [reflexivity|]. split; [reflexivity|].
  rewrite <- (app_nil_r (Wire.Container l)).
  apply Serializator_deserialize_wire_full; [|exact En].
  rewrite Hn.
  apply fromLittleEndian_range, length_firstn_8.
  rewrite length_app. unfold Wire.Container.
  rewrite length_app, length_u64. lia.
Qed.

Lemma X9_container_common_prefix_witness :
  Serializator_deserialize (sample_buffer ++ [Byte.x01])
  = Ok [Any_Integer (mkIntegerType 5); Any_String (mkStringType [Byte.x78])]
  /\ Serializator_deserialize (sample_buffer ++ [Byte.x02; Byte.x03])
     = Ok [Any_Integer (mkIntegerType 5);
           Any_String (mkStringType [Byte.x78])]
  /\ exists prefix extra1 extra2,
       sample_buffer ++ [Byte.x01] = prefix ++ extra1
       /\ sample_buffer ++ [Byte.x02; Byte.x03] = prefix ++ extra2
       /\ Serializator_deserialize prefix
          = Ok [Any_Integer (mkIntegerType 5);
                Any_String (mkStringType [Byte.x78])].
Proof.
  assert (H1 : Serializator_deserialize (sample_buffer ++ [Byte.x01])
               = Ok [Any_Integer (mkIntegerType 5);
                     Any_String (mkStringType [Byte.x78])])
    by (vm_compute; reflexivity).
  assert (H2 : Serializator_deserialize
                 (sample_buffer ++ [Byte.x02; Byte.x03])
               = Ok [Any_Integer (mkIntegerType 5);
                     Any_String (mkStringType [Byte.x78])])
    by (vm_compute; reflexivity).
  split; [exact H1|]. split; [exact H2|].
  exact (X9_container_common_prefix _ _ _ H1 H2).
Defined.

(** ** Counts and sizes *)

Lemma length_Values_ge (l : list Any) :
  (16 * length l <= length (Wire.Values l))%nat.
Proof.
  induction l as [|a l IH]; [simpl; lia|].
  unfold Wire.Values in *. cbn [flat_map length]. rewrite length_app.
  pose proof (length_Value_ge a). lia.
Qed.

Lemma VectorType_deserialize_sound (range : Range) v rest :
  VectorType_deserialize range = Ok (v, rest) ->
  (8 <= length range)%nat
  /\ Z.of_nat (length (getElements v)) = fromLittleEndian (firstn 8 range)
  /\ range = firstn 8 range ++ Wire.Values (getElements v) ++ rest
  /\ forallb encodable (getElements v) = true.
Proof.
  apply VectorType_deserialize_with_sound.
  intros r a r'. apply Any_deserialize_sound.
Qed.

(** X10. A vector or a container that decodes has exactly as many
    elements as its count field declares, and the decode has consumed
    the count field and at least 16 bytes for each element. A count that
    the bytes cannot pay for, 16 bytes an element, never yields a
    result. *)
Theorem X10_count_is_paid_for (range : Range) :
  (forall v rest,
     VectorType_deserialize range = Ok (v, rest) ->
     Z.of_nat (length (getElements v)) = fromLittleEndian (firstn 8 range)
     /\ (8 + 16 * length (getElements v) + length rest <= length range)%nat)
  /\ (forall l,
        Serializator_deserialize range = Ok l ->
        Z.of_nat (length l) = fromLittleEndian (firstn 8 range)
        /\ (8 + 16 * length l <= length range)%nat)
  /\ (Z.of_nat (length range) < 8 + 16 * fromLittleEndian (firstn 8 range) ->
      (forall v rest, VectorType_deserialize range <> Ok (v, rest))
      /\ (forall l, Serializator_deserialize range <> Ok l)).
Proof.
  assert (HV : forall v rest,
     VectorType_deserialize range = Ok (v, rest) ->
     Z.of_nat (length (getElements v)) = fromLittleEndian (firstn 8 range)
     /\ (8 + 16 * length (getElements v) + length rest <= length range)%nat).
  { intros v rest H. apply VectorType_deserialize_sound in H.
    destruct H as (L & Hn & E & _). split; [exact Hn|].
    pose proof (length_Values_ge (getElements v)) as B.
    apply (f_equal (@length byte)) in E.
    rewrite !length_app, length_firstn_8 in E by exact L. lia. }
  assert (HC : forall l,
        Serializator_deserialize range = Ok l ->
        Z.of_nat (length l) = fromLittleEndian (firstn 8 range)
        /\ (8 + 16 * length l <= length range)%nat).
  { intros l H. apply Serializator_deserialize_sound in H.
    destruct H as (L & Hn & _ & extra & E). split; [exact Hn|].
    pose proof (length_Values_ge l) as B.
    apply (f_equal (@length byte)) in E. unfold Wire.Container in E.
    rewrite !length_app, length_u64 in E. lia. }
  split; [exact HV|]. split; [exact HC|].
  intros Hshort. split.
  - intros v rest H. apply HV in H. lia.
  - intros l H. apply HC in H. lia.
Qed.

Lemma X10_count_is_paid_for_witness :
  Serializator_deserialize sample_buffer
  = Ok [Any_Integer (mkIntegerType 5); Any_String (mkStringType [Byte.x78])]
  /\ Z.of_nat 2 = fromLittleEndian (firstn 8 sample_buffer)
  /\ (8 + 16 * 2 <= length sample_buffer)%nat.
Proof.
  assert (H : Serializator_deserialize sample_buffer
              = Ok [Any_Integer (mkIntegerType 5);
                    Any_String (mkStringType [Byte.x78])])
    by (vm_compute; reflexivity).
  split; [exact H|].
  exact (proj1 (proj2 (X10_count_is_paid_for sample_buffer)) _ H).
Defined.

(** ** Cutting a value short *)

Lemma firstn_app_short (n : nat) (x y : list byte) :
  (n <= length x)%nat -> firstn n (x ++ y) = firstn n x.
Proof. apply firstn_app_within. Qed.

Lemma firstn_app_long (n : nat) (x y : list byte) :
  (length x <= n)%nat -> firstn n (x ++ y) = x ++ firstn (n - length x) y.
Proof.
  intros H. rewrite firstn_app. f_equal. apply firstn_all2. exact H.
Qed.

Lemma guard_short (range : Range) :
  (length range < 8)%nat ->
  lt_sizeof (distance range) sizeof_uint64 = true.
Proof. apply lt_sizeof_true. Qed.

Lemma IntegerType_deserialize_short (range : Range) :
  (length range < 8)%nat ->
  IntegerType_deserialize range = Throw TruncatedInput.
Proof.
  intros H. unfold IntegerType_deserialize.
  rewrite guard_short by exact H. reflexivity.
Qed.

Lemma FloatType_deserialize_short (range : Range) :
  (length range < 8)%nat ->
  FloatType_deserialize range = Throw TruncatedInput.
Proof.
  intros H. unfold FloatType_deserialize.
  change sizeof_double with sizeof_uint64.
  rewrite guard_short by exact H. reflexivity.
Qed.

Lemma StringType_deserialize_cut (chars : list byte) (m : nat) :
  Z.of_nat (length chars) < 2 ^ 63 ->
  (m < 8 + length chars)%nat ->
  StringType_deserialize
    (firstn m (Wire.u64 (Z.of_nat (length chars)) ++ chars))
  = Throw TruncatedInput.
Proof.
  intros Hn Hm. unfold StringType_deserialize.
  destruct (Nat.lt_ge_cases m 8) as [L|L].
  - rewrite guard_short; [reflexivity|]. rewrite length_firstn. lia.
  - rewrite firstn_app_long by (rewrite length_u64; lia).
    rewrite length_u64, guard_u64, read_u64. cbn [bind].
    rewrite fromLittleEndian_u64 by (unfold in_range, modulus; lia).
    rewrite advance_u64, to_int64_small by lia.
    replace (distance (firstn (m - 8) chars) <? Z.of_nat (length chars))
      with true; [reflexivity|].
    symmetry. apply Z.ltb_lt. unfold distance. rewrite length_firstn. lia.
Qed.

Lemma deserialize_elements_cut (l : list Any) :
  Forall (fun a =>
            representable a = true
            /\ forall n : nat, (n < length (Wire.Value a))%nat ->
                 Any_deserialize (firstn n (Wire.Value a))
                 = Throw TruncatedInput) l ->
  forall (i size : Z) (acc : list Any) (k : nat),
    0 <= i -> i + Z.of_nat (length l) = size -> size < modulus ->
    (k < length (Wire.Values l))%nat ->
    deserialize_elements i size (firstn k (Wire.Values l)) acc
    = Throw TruncatedInput.
Proof.
  induction 1 as [|a l [Ra Ha] _ IH]; intros i size acc k Hi Hsz Hm Hk;
    cbn [length] in Hsz.
  - simpl in Hk. lia.
  - rewrite deserialize_elements_eq.
    replace (i <? size) with true by (symmetry; apply Z.ltb_lt; lia).
    unfold Wire.Values in *. cbn [flat_map] in *.
    rewrite length_app in Hk.
    destruct (Nat.lt_ge_cases k (length (Wire.Value a))) as [L|L].
    + rewrite firstn_app_short by lia. rewrite Ha by exact L. reflexivity.
    + rewrite firstn_app_long by exact L.
      rewrite (Any_deserialize_wire a Ra). cbn [bind].
      rewrite wrap64_small by (unfold in_range; lia).
      apply IH; lia.
Qed.

Lemma Any_deserialize_cut (a : Any) :
  representable a = true ->
  forall n : nat, (n < length (Wire.Value a))%nat ->
    Any_deserialize (firstn n (Wire.Value a)) = Throw TruncatedInput.
Proof.
  induction a as [[v]|[[bits]]|[chars]|elements_ IH] using Any_nested_ind;
    intros R n Hn; rewrite Any_deserialize_eq;
    (destruct (Nat.lt_ge_cases n 8) as [L|L];
     [rewrite guard_short; [reflexivity | rewrite length_firstn; lia]|]);
    cbn [Wire.Value getPayloadTypeId int_value_ float_value_ bit_pattern
         string_value_] in *;
    rewrite length_app, length_u64 in Hn;
    rewrite firstn_app_long by (rewrite length_u64; lia);
    rewrite length_u64, guard_u64, read_u64; cbn [bind];
    rewrite fromLittleEndian_u64 by apply in_range_code;
    rewrite of_code_code, advance_u64.
  - rewrite length_u64 in Hn.
    rewrite IntegerType_deserialize_short; [reflexivity|].
    rewrite length_firstn. lia.
  - rewrite length_u64 in Hn.
    rewrite FloatType_deserialize_short; [reflexivity|].
    rewrite length_firstn. lia.
  - rewrite length_app, length_u64 in Hn.
    cbn [representable string_value_] in R. apply Z.ltb_lt in R.
    rewrite StringType_deserialize_cut; [reflexivity | exact R | lia].
  - rewrite representable_Vector in R. unfold all_representable in R.
    apply andb_true_iff in R. destruct R as [Rn Rall].
    apply Z.ltb_lt in Rn. rewrite forallb_forall in Rall.
    fold (Wire.Values elements_) in *.
    rewrite length_app, length_u64 in Hn.
    rewrite VectorType_deserialize_eq.
    destruct (Nat.lt_ge_cases (n - 8) 8) as [L'|L'].
    + rewrite guard_short; [reflexivity | rewrite length_firstn; lia].
    + rewrite firstn_app_long by (rewrite length_u64; lia).
      rewrite length_u64, guard_u64, read_u64. cbn [bind].
      rewrite fromLittleEndian_u64 by (unfold in_range; lia).
      rewrite advance_u64.
      rewrite (deserialize_elements_cut elements_); try lia; [reflexivity|].
      rewrite Forall_forall in *. intros a Hin. split; [auto|].
      apply IH; auto.
Qed.

Lemma length_Value_le_Values (a : Any) (l : list Any) :
  In a l -> (length (Wire.Value a) <= length (Wire.Values l))%nat.
Proof.
  induction l as [|b l IH]; intros Hin; [destruct Hin|].
  unfold Wire.Values in *. cbn [flat_map]. rewrite length_app.
  destruct Hin as [->|Hin]; [lia|]. specialize (IH Hin). lia.
Qed.

Lemma encodable_representable (a : Any) :
  encodable a = true -> Z.of_nat (length (Wire.Value a)) < 2 ^ 63 ->
  representable a = true.
Proof.
  induction a as [v|v|v|elements_ IH] using Any_nested_ind; intros E B.
  - exact E.
  - exact E.
  - cbn [representable]. apply Z.ltb_lt.
    cbn [Wire.Value] in B. rewrite !length_app in B. lia.
  - rewrite representable_Vector. unfold all_representable.
    rewrite encodable_Vector in E. apply andb_true_iff in E.
    destruct E as [En Eall]. rewrite En. cbn [andb].
    rewrite forallb_forall in *. rewrite Forall_forall in IH.
    intros a Hin. apply IH; auto.
    pose proof (length_Value_le_Values a elements_ Hin) as Le.
    cbn [Wire.Value] in B. fold (Wire.Values elements_) in B.
    rewrite !length_app in B. lia.
Qed.

(** X11. Let [Any::deserialize] succeed on a range of fewer than [2^63]
    bytes. On the same bytes cut anywhere before the end of the value
    that it consumed, it throws the truncation error: not another error,
    not a shorter value, no read past the end. *)
Theorem X11_cut_value_is_truncated (range : Range) (a : Any) (rest : Range)
    (n : nat)
    (H : Any_deserialize range = Ok (a, rest))
    (Hsize : Z.of_nat (length range) < 2 ^ 63)
    (Hn : (n + length rest < length range)%nat) :
  Any_deserialize (firstn n range) = Throw TruncatedInput.
Proof.
  apply Any_deserialize_sound in H. destruct H as [-> E].
  rewrite length_app in Hsize, Hn.
  rewrite firstn_app_short by lia.
  apply Any_deserialize_cut; [|lia].
  apply encodable_representable; [exact E | lia].
Qed.

Lemma X11_cut_value_is_truncated_witness :
  Any_deserialize (skipn 24 sample_buffer)
  = Ok (Any_String (mkStringType [Byte.x78]), [])
  /\ Z.of_nat (length (skipn 24 sample_buffer)) < 2 ^ 63
  /\ (16 + length (@nil byte) < length (skipn 24 sample_buffer))%nat
  /\ Any_deserialize (firstn 16 (skipn 24 sample_buffer))
     = Throw TruncatedInput.
Proof.
  assert (H : Any_deserialize (skipn 24 sample_buffer)
              = Ok (Any_String (mkStringType [Byte.x78]), []))
    by (vm_compute; reflexivity).
  assert (Hs : Z.of_nat (length (skipn 24 sample_buffer)) < 2 ^ 63)
    by (vm_compute; reflexivity).
  assert (Hn : (16 + length (@nil byte)
                < length (skipn 24 sample_buffer))%nat)
    by (vm_compute; lia).
  split; [exact H|]. split; [exact Hs|]. split; [exact Hn|].
  exact (X11_cut_value_is_truncated _ _ _ 16%nat H Hs Hn).
Defined.

Lemma representable_elements (l : list Any) (bound : nat) :
  forallb encodable l = true ->
  (length (Wire.Values l) <= bound)%nat -> Z.of_nat bound < 2 ^ 63 ->
  Forall (fun a =>
            representable a = true
            /\ forall n : nat, (n < length (Wire.Value a))%nat ->
                 Any_deserialize (firstn n (Wire.Value a))
                 = Throw TruncatedInput) l.
Proof.
  intros E B Hb. rewrite forallb_forall in E. rewrite Forall_forall.
  intros a Hin.
  assert (R : representable a = true).
  { apply encodable_representable; [auto|].
    pose proof (length_Value_le_Values a l Hin). lia. }
  split; [exact R|]. apply Any_deserialize_cut. exact R.
Qed.

(** X12. Let [Serializator::deserialize] return a list on a buffer of
    fewer than [2^63] bytes. There is a length [m] such that every
    prefix of the buffer of [m] bytes or more decodes to that list, and
    every shorter prefix throws the truncation error: a buffer cut short
    never yields a shorter list or another failure. *)
Theorem X12_cut_container (buffer : Buffer) (l : list Any)
    (H : Serializator_deserialize buffer = Ok l)
    (Hsize : Z.of_nat (length buffer) < 2 ^ 63) :
  exists m : nat,
    (m <= length buffer)%nat
    /\ (forall n : nat, (m <= n)%nat ->
          Serializator_deserialize (firstn n buffer) = Ok l)
    /\ (forall n : nat, (n < m)%nat ->
          Serializator_deserialize (firstn n buffer) = Throw TruncatedInput).
Proof.
  apply Serializator_deserialize_sound in H.
  destruct H as (_ & _ & En & extra & ->).
  rewrite length_app in Hsize.
  assert (Hc : length (Wire.Container l) = (8 + length (Wire.Values l))%nat)
    by (unfold Wire.Container; rewrite length_app, length_u64; reflexivity).
  pose proof (length_Values_ge l) as Hv.
  exists (length (Wire.Container l)).
  split; [rewrite length_app; lia|]. split.
  - intros n Hn. rewrite firstn_app_long by exact Hn.
    apply Serializator_deserialize_wire_full; [|exact En].
    unfold modulus. lia.
  - intros n Hn. rewrite firstn_app_short by lia.
    rewrite Serializator_deserialize_eq.
    destruct (Nat.lt_ge_cases n 8) as [L|L].
    + rewrite guard_short; [reflexivity | rewrite length_firstn; lia].
    + unfold Wire.Container.
      rewrite firstn_app_long by (rewrite length_u64; lia).
      rewrite length_u64, guard_u64, read_u64. cbn [bind].
      rewrite fromLittleEndian_u64 by (unfold in_range, modulus; lia).
      rewrite advance_u64.
      rewrite (deserialize_elements_cut l);
        try (unfold modulus; lia); [reflexivity|].
      apply (representable_elements l (length (Wire.Values l)));
        [exact En | lia | lia].
Qed.

Lemma X12_cut_container_witness :
  Serializator_deserialize (sample_buffer ++ [Byte.xff])
  = Ok [Any_Integer (mkIntegerType 5); Any_String (mkStringType [Byte.x78])]
  /\ Z.of_nat (length (sample_buffer ++ [Byte.xff])) < 2 ^ 63
  /\ exists m : nat,
       (m <= length (sample_buffer ++ [Byte.xff]))%nat
       /\ (forall n : nat, (m <= n)%nat ->
             Serializator_deserialize (firstn n (sample_buffer ++ [Byte.xff]))
             = Ok [Any_Integer (mkIntegerType 5);
                   Any_String (mkStringType [Byte.x78])])
       /\ (forall n : nat, (n < m)%nat ->
             Serializator_deserialize (firstn n (sample_buffer ++ [Byte.xff]))
             = Throw TruncatedInput).
Proof.
  assert (H : Serializator_deserialize (sample_buffer ++ [Byte.xff])
              = Ok [Any_Integer (mkIntegerType 5);
                    Any_String (mkStringType [Byte.x78])])
    by (vm_compute; reflexivity).
  assert (Hs : Z.of_nat (length (sample_buffer ++ [Byte.xff])) < 2 ^ 63)
    by (vm_compute; reflexivity).
  split; [exact H|]. split; [exact Hs|].
  exact (X12_cut_container _ _ H Hs).
Defined.

(** ** Short and empty input *)

(** X13. [Serializator::deserialize] returns the empty list exactly on
    the buffers of 8 bytes or more whose count field is zero, whatever
    follows the count; on every buffer of fewer than 8 bytes, the empty
    one included, it throws the truncation error, and so do
    [Any::deserialize] and [VectorType::deserialize]. *)
Theorem X13_empty_and_short (range : Range) :
  (Serializator_deserialize range = Ok []
   <-> (8 <= length range)%nat /\ fromLittleEndian (firstn 8 range) = 0)
  /\ ((length range < 8)%nat ->
      Serializator_deserialize range = Throw TruncatedInput
      /\ Any_deserialize range = Throw TruncatedInput
      /\ VectorType_deserialize range = Throw TruncatedInput).
Proof.
  split; [split|].
  - intros H. apply Serializator_deserialize_sound in H.
    destruct H as (L & Hn & _). split; [exact L|]. rewrite <- Hn.
    reflexivity.
  - intros [L Hz]. rewrite Serializator_deserialize_eq.
    unfold sizeof_uint64.
    rewrite (proj2 (lt_sizeof_false range) L), read_bytes_8 by exact L.
    cbn [bind]. rewrite Hz, deserialize_elements_eq. reflexivity.
  - intros L. split; [|split].
    + rewrite Serializator_deserialize_eq, guard_short by exact L.
      reflexivity.
    + rewrite Any_deserialize_eq, guard_short by exact L. reflexivity.
    + rewrite VectorType_deserialize_eq, guard_short by exact L.
      reflexivity.
Qed.

Lemma X13_empty_and_short_witness :
  (8 <= length (toLittleEndian 0 ++ [Byte.x2a]))%nat
  /\ fromLittleEndian (firstn 8 (toLittleEndian 0 ++ [Byte.x2a])) = 0
  /\ Serializator_deserialize (toLittleEndian 0 ++ [Byte.x2a]) = Ok []
  /\ (length (@nil byte) < 8)%nat
  /\ Serializator_deserialize [] = Throw TruncatedInput.
Proof.
  assert (H1 : (8 <= length (toLittleEndian 0 ++ [Byte.x2a]))%nat)
    by (vm_compute; lia).
  assert (H2 : fromLittleEndian (firstn 8 (toLittleEndian 0 ++ [Byte.x2a]))
               = 0) by (vm_compute; reflexivity).
  assert (H3 : (length (@nil byte) < 8)%nat) by (simpl; lia).
  split; [exact H1|]. split; [exact H2|].
  split; [exact (proj2 (proj1 (X13_empty_and_short _)) (conj H1 H2))|].
  split; [exact H3|].
  exact (proj1 (proj2 (X13_empty_and_short []) H3)).
Defined.

(** ** Building containers *)

Lemma fold_push (l : list Any) :
  forall s : Serializator,
    storage_ (fold_left push l s) = storage_ s ++ l.
Proof.
  induction l as [|a l IH]; intros s; cbn [fold_left].
  - rewrite app_nil_r. reflexivity.
  - rewrite IH. unfold push. cbn [storage_].
    rewrite <- app_assoc. reflexivity.
Qed.

Lemma fold_push_back (l : list Any) :
  forall v : VectorType,
    getElements (fold_left VectorType_push_back l v) = getElements v ++ l.
Proof.
  induction l as [|a l IH]; intros v; cbn [fold_left].
  - rewrite app_nil_r. reflexivity.
  - rewrite IH. unfold VectorType_push_back. cbn [getElements].
    rewrite <- app_assoc. reflexivity.
Qed.

(** X14. [Serializator::push] and [VectorType::push_back] append: after
    pushing the values of a list one by one, [getStorage] and
    [getElements] give what was there before followed by the list, in
    order and with repetitions kept. Pushing a decoded list into a fresh
    container, as [main] does, gives a container that stores that list. *)
Theorem X14_push_appends (l : list Any) (s : Serializator) (v : VectorType) :
  getStorage (fold_left push l s) = getStorage s ++ l
  /\ getElements (fold_left VectorType_push_back l v) = getElements v ++ l
  /\ getStorage (fold_left push l (mkSerializator [])) = l.
Proof.
  unfold getStorage. split; [apply fold_push|].
  split; [apply fold_push_back|]. rewrite fold_push. reflexivity.
Qed.

(** ** What [serialize] and [main] do as written *)

Lemma VectorType_serialize_nonempty (e : Any) (l : list Any)
    (buffer : Buffer) :
  VectorType_serialize (mkVectorType (e :: l)) buffer
  = Undefined InvalidRange.
Proof.
  unfold VectorType_serialize. cbn [VectorType_serialize_with].
  rewrite insert_at_end_variable. cbn [bind].
  destruct e; reflexivity.
Qed.

Lemma Serializator_serialize_empty :
  Serializator_serialize (mkSerializator []) = Ok (toLittleEndian 0).
Proof. reflexivity. Qed.

(** X15. The C++ standard defines what [Serializator::serialize] and
    [VectorType::serialize] do exactly for an empty sequence: they give
    the count field of 8 zero bytes. For every sequence with an element,
    and on every call of [Any::serialize], execution reaches the [insert]
    of lines 168 to 178 with the [begin()] of one vector and the [end()]
    of another, an iterator pair that is no range; what happens then is
    not defined (the call may throw, or append other bytes and return). *)
Theorem X15_serialize_defined_for_empty (C : Serializator) (v : VectorType)
    (a : Any) (buffer : Buffer) :
  (getStorage C = [] -> Serializator_serialize C = Ok (toLittleEndian 0))
  /\ (getElements v = [] ->
      VectorType_serialize v buffer = Ok (buffer ++ toLittleEndian 0))
  /\ (getStorage C <> [] ->
      Serializator_serialize C = Undefined InvalidRange)
  /\ (getElements v <> [] ->
      VectorType_serialize v buffer = Undefined InvalidRange)
  /\ Any_serialize a buffer = Undefined InvalidRange.
Proof.
  unfold getStorage. destruct C as [st], v as [es]. cbn [storage_ getElements].
  split; [|split; [|split; [|split]]].
  - intros ->. apply Serializator_serialize_empty.
  - intros ->. apply VectorType_serialize_empty.
  - intros H. apply Serializator_serialize_nonempty. exact H.
  - intros H. destruct es as [|e l]; [congruence|].
    apply VectorType_serialize_nonempty.
  - apply Any_serialize_invalid.
Qed.

Lemma X15_serialize_defined_for_empty_witness :
  getStorage (push (mkSerializator []) (Any_Integer (mkIntegerType 1))) <> []
  /\ Serializator_serialize
       (push (mkSerializator []) (Any_Integer (mkIntegerType 1)))
     = Undefined InvalidRange
  /\ getStorage (mkSerializator []) = []
  /\ Serializator_serialize (mkSerializator []) = Ok (toLittleEndian 0).
Proof.
  assert (H : getStorage
                (push (mkSerializator []) (Any_Integer (mkIntegerType 1)))
              <> []) by discriminate.
  split; [exact H|]. split.
  - exact (proj1 (proj2 (proj2
             (X15_serialize_defined_for_empty
                (push (mkSerializator []) (Any_Integer (mkIntegerType 1)))
                (mkVectorType []) (Any_Integer (mkIntegerType 1)) []))) H).
  - split; [reflexivity|].
    exact (proj1
             (X15_serialize_defined_for_empty (mkSerializator [])
                (mkVectorType []) (Any_Integer (mkIntegerType 1)) [])
             eq_refl).
Defined.

Lemma Buffer_eqb_eq (x : Buffer) :
  forall y : Buffer, Buffer_eqb x y = true <-> x = y.
Proof.
  induction x as [|a x IH]; intros [|b y]; cbn [Buffer_eqb];
    try (split; [discriminate | discriminate]); [tauto|].
  rewrite andb_true_iff, IH. split.
  - intros [Hab ->]. apply Byte.byte_dec_bl in Hab. subst. reflexivity.
  - intros E. inversion E; subst. split; [apply Byte.byte_dec_lb|];
      reflexivity.
Qed.

(** X16. [main], once the file is read. When decoding throws, [main]
    ends with that exception. When decoding gives the empty list, [main]
    prints 1 if the buffer is exactly the 8 zero bytes of the empty
    container and 0 if any byte follows them. When decoding gives a list
    with an element, re-encoding reaches the [insert] of
    [Any::serialize] whose iterator pair is no range, and what [main]
    does from there is not defined. *)
Theorem X16_main_outcomes (buff : Buffer) :
  (forall e,
     Serializator_deserialize buff = Throw e ->
     main_after_read buff = Throw e)
  /\ (Serializator_deserialize buff = Ok [] ->
      (buff = toLittleEndian 0 -> main_after_read buff = Ok true)
      /\ (buff <> toLittleEndian 0 -> main_after_read buff = Ok false))
  /\ (forall l,
        Serializator_deserialize buff = Ok l -> l <> [] ->
        main_after_read buff = Undefined InvalidRange).
Proof.
  split; [|split].
  - intros e H. unfold main_after_read. rewrite H. reflexivity.
  - intros H.
    assert (E : main_after_read buff
                = Ok (Buffer_eqb buff (toLittleEndian 0)))
      by (unfold main_after_read; rewrite H; reflexivity).
    rewrite E. split.
    + intros Hb. f_equal. apply Buffer_eqb_eq. exact Hb.
    + intros Hb. f_equal.
      destruct (Buffer_eqb buff (toLittleEndian 0)) eqn:B; [|reflexivity].
      apply Buffer_eqb_eq in B. contradiction.
  - intros l H Hl. unfold main_after_read. rewrite H. cbn [bind].
    rewrite Serializator_serialize_nonempty; [reflexivity|].
    rewrite fold_push. exact Hl.
Qed.

Lemma X16_main_outcomes_witness :
  Serializator_deserialize (toLittleEndian 0 ++ [Byte.x2a]) = Ok []
  /\ toLittleEndian 0 ++ [Byte.x2a] <> toLittleEndian 0
  /\ main_after_read (toLittleEndian 0 ++ [Byte.x2a]) = Ok false
  /\ Serializator_deserialize sample_truncated = Throw TruncatedInput
  /\ main_after_read sample_truncated = Throw TruncatedInput.
Proof.
  assert (H1 : Serializator_deserialize (toLittleEndian 0 ++ [Byte.x2a])
               = Ok []) by (vm_compute; reflexivity).
  assert (H2 : toLittleEndian 0 ++ [Byte.x2a] <> toLittleEndian 0)
    by (vm_compute; discriminate).
  assert (H3 : Serializator_deserialize sample_truncated
               = Throw TruncatedInput) by (vm_compute; reflexivity).
  split; [exact H1|]. split; [exact H2|]. split.
  - exact (proj2 (proj1 (proj2 (X16_main_outcomes _)) H1) H2).
  - split; [exact H3|].
    exact (proj1 (X16_main_outcomes sample_truncated) _ H3).
Defined.
